(** * The solo ordering chain and the system-channel message processor

    A shallow embedding of

      - [orderer/consensus/solo/consensus.go]  (package [solo]), and
      - the [msgprocessor] package: the [Processor] interface and the
        [SystemChannel] processor,

    followed by the properties of the ordering service that rest on them.

    Conventions.  A Go function returning [(v, err)] is a function into a
    pair whose second component is an [option error] ([None] is [nil]).  A
    Go slice is an [option (list A)]: [None] is the [nil] slice, which the
    code tells apart from an empty one.  A [uint64] is an [N], an [int32]
    or [int] a [Z]; no arithmetic is performed on any of them here.
    Collaborators that live outside the two files (the block cutter, the
    ledger writer, the standard channel processor, the signer, the
    configuration manager) are interfaces in the source and records or
    type classes here. *)

From stdpp Require Import base decidable option list strings.
From Stdlib Require Import ZArith NArith Strings.Byte.

(** ** Go values *)

Module Go.

(** An [error] value.  [ErrChannelDoesNotExist] is the package-level
    variable of [msgprocessor]; Go compares it by identity, so it is a
    constructor of its own and differs from every error built elsewhere. *)
Inductive error : Type :=
| ErrChannelDoesNotExist
| Errorf (msg : string).

#[global] Instance error_eq_dec : EqDecision error.
Proof. solve_decision. Defined.

Definition bytes : Type := list byte.

(** Slices: [None] is [nil]. *)
Definition slice (A : Type) : Type := option (list A).

Definition len {A} (s : slice A) : nat :=
  match s with
  | None => 0
  | Some l => length l
  end.

(** The elements a [for _, x := range s] loop visits. *)
Definition elems {A} (s : slice A) : list A :=
  match s with
  | None => []
  | Some l => l
  end.

Definition is_nil {A} (s : slice A) : bool :=
  match s with
  | None => true
  | Some _ => false
  end.

(** A channel that only ever gets closed ([chan struct{}] used as a
    one-shot signal): it is open or closed. *)
Inductive signal : Type := Open | Closed.

#[global] Instance signal_eq_dec : EqDecision signal.
Proof. solve_decision. Defined.

(** A receive from a signal channel can proceed exactly when it is closed. *)
Definition ready (c : signal) : bool :=
  match c with
  | Open => false
  | Closed => true
  end.

(** [close(c)]: closing a closed channel is a run-time panic. *)
Definition close (c : signal) : option signal :=
  match c with
  | Open => Some Closed
  | Closed => None
  end.

End Go.

(** ** [protos/common] *)

Module cb.

(** The header type codes the two files refer to, and a catch-all for the
    other values of the wire enum. *)
Inductive HeaderType : Type :=
| HeaderType_MESSAGE
| HeaderType_CONFIG
| HeaderType_CONFIG_UPDATE
| HeaderType_ENDORSER_TRANSACTION
| HeaderType_ORDERER_TRANSACTION
| HeaderType_other (code : Z).

#[global] Instance HeaderType_eq_dec : EqDecision HeaderType.
Proof. solve_decision. Defined.

Record ChannelHeader : Type := {
  Type_ : HeaderType;
  Version : Z;
  ChannelId : string;
  Epoch : N
}.

Record SignatureHeader : Type := {
  Creator : Go.bytes;
  Nonce : Go.bytes
}.

(** The result of a configuration update; opaque to this code. *)
Record ConfigEnvelope : Type := {
  Config : Go.bytes
}.

(** Modelled from the spec: the wire messages of [protos/common], which
    are not part of the two files.  Marshalled bytes are kept in parsed
    form: [Payload = None] stands for payload bytes that do not unmarshal,
    [Header = None] for a payload without header, [ChannelHeader = None]
    for channel-header bytes that do not unmarshal. *)
Inductive Envelope : Type :=
| mkEnvelope (Payload : option Payload) (Signature : Go.bytes)
with Payload : Type :=
| mkPayload (Header : option Header) (Data : Message)
with Header : Type :=
| mkHeader (ChannelHeader : option ChannelHeader) (SignatureHeader : SignatureHeader)
with Message : Type :=
| MsgBytes (b : Go.bytes)
| MsgConfigEnvelope (c : ConfigEnvelope)
| MsgEnvelope (e : Envelope).

(** Modelled from the spec: a block is "a sequence of Envelopes plus
    metadata, opaque beyond this core"; the number stands for the header. *)
Record Block : Type := {
  Number : N;
  Data : list Envelope
}.

Definition Envelope_Payload (e : Envelope) : option Payload :=
  match e with mkEnvelope p _ => p end.

Definition Envelope_Signature (e : Envelope) : Go.bytes :=
  match e with mkEnvelope _ s => s end.

Definition Payload_Header (p : Payload) : option Header :=
  match p with mkPayload h _ => h end.

Definition Payload_Data (p : Payload) : Message :=
  match p with mkPayload _ d => d end.

Definition Header_ChannelHeader (h : Header) : option ChannelHeader :=
  match h with mkHeader c _ => c end.

Definition Header_SignatureHeader (h : Header) : SignatureHeader :=
  match h with mkHeader _ s => s end.

End cb.

(** ** [common/crypto]: the local signer *)

Module crypto.

(** The interface [LocalSigner]; each method returns its value or an
    error. *)
Record LocalSigner : Type := {
  NewSignatureHeader : cb.SignatureHeader + Go.error;
  Sign : cb.Payload -> Go.bytes + Go.error
}.

End crypto.

(** ** [protos/utils] *)

Module utils.

Import Go cb.

(** Modelled from the spec: [utils.ChannelHeader], which is not part of the
    two files.  It re-derives the channel header of an envelope and fails
    when the payload, its header or the channel header cannot be
    extracted. *)
Definition ChannelHeader (env : Envelope) : option cb.ChannelHeader * option error :=
  match Envelope_Payload env with
  | None => (None, Some (Errorf "payload unmarshaling error"))
  | Some payload =>
      match Payload_Header payload with
      | None => (None, Some (Errorf "payload header is nil"))
      | Some hdr =>
          match Header_ChannelHeader hdr with
          | None => (None, Some (Errorf "channel header unmarshaling error"))
          | Some chdr => (Some chdr, None)
          end
      end
  end.

(** Modelled from the spec: [utils.ChannelID], "extracts target channel
    ID"; it fails exactly when the channel header cannot be extracted. *)
Definition ChannelID (env : Envelope) : string * option error :=
  match ChannelHeader env with
  | (Some chdr, None) => (ChannelId chdr, None)
  | (_, Some err) => ("", Some err)
  | (None, None) => ("", Some (Errorf "no channel header"))
  end.

Definition MakeChannelHeader (headerType : HeaderType) (version : Z)
    (chainID : string) (epoch : N) : cb.ChannelHeader :=
  {| Type_ := headerType; Version := version; ChannelId := chainID; Epoch := epoch |}.

(** Modelled from the spec: [utils.CreateSignedEnvelope], "wrap that
    payload into a signed Envelope of [the given type], addressed to [the
    given channel], stamped with the process version/epoch and signed by
    the local signer".  A [nil] signer leaves the signature header and the
    signature empty; a [nil] message cannot be marshalled. *)
Definition CreateSignedEnvelope (txType : HeaderType) (channelID : string)
    (signer : option crypto.LocalSigner) (dataMsg : option Message)
    (msgVersion : Z) (epoch : N) : option Envelope * option error :=
  let payloadChannelHeader := MakeChannelHeader txType msgVersion channelID epoch in
  let sighdr :=
    match signer with
    | None => inl {| Creator := []; Nonce := [] |}
    | Some sg => crypto.NewSignatureHeader sg
    end in
  match sighdr with
  | inr err => (None, Some err)
  | inl payloadSignatureHeader =>
      match dataMsg with
      | None => (None, Some (Errorf "marshal of a nil message"))
      | Some data =>
          let payl :=
            mkPayload (Some (mkHeader (Some payloadChannelHeader) payloadSignatureHeader))
                      data in
          match signer with
          | None => (Some (mkEnvelope (Some payl) []), None)
          | Some sg =>
              match crypto.Sign sg payl with
              | inr err => (None, Some err)
              | inl sig => (Some (mkEnvelope (Some payl) sig), None)
              end
          end
      end
  end.

(** The envelope carried as the data of an envelope's payload, if any. *)
Definition EmbeddedEnvelope (env : Envelope) : option Envelope :=
  match Envelope_Payload env with
  | Some payload =>
      match Payload_Data payload with
      | MsgEnvelope inner => Some inner
      | _ => None
      end
  | None => None
  end.

(** The message carried as the data of an envelope's payload, if any. *)
Definition Data (env : Envelope) : option Message :=
  Payload_Data <$> Envelope_Payload env.

(** The signature of [env] is the one [signer] gives for its payload; there
    is none to give when [signer] is [nil]. *)
Definition signed_by (signer : option crypto.LocalSigner) (env : Envelope) : Prop :=
  match Envelope_Payload env, signer with
  | Some payload, Some sg => crypto.Sign sg payload = inl (Envelope_Signature env)
  | Some _, None => Envelope_Signature env = []
  | None, _ => False
  end.

End utils.

(** ** [common/configtx/api] *)

Module configtxapi.

Import Go cb.

(** The one method of the interface [Manager] that is called here. *)
Record Manager : Type := {
  ProposeConfigUpdate : Envelope -> ConfigEnvelope + error
}.

End configtxapi.

(** ** Package [msgprocessor] *)

Module msgprocessor.

Import Go cb.

Definition msgVersion : Z := 0.
Definition epoch : N := 0.

(** [Classification] is a Go [int]; the two constants are [iota] values. *)
Definition Classification : Type := Z.
Definition NormalMsg : Classification := 0%Z.
Definition ConfigUpdateMsg : Classification := 1%Z.

(** The interface [Processor]. *)
Module Processor.

Record t : Type := {
  ClassifyMsg : option ChannelHeader -> Classification * option error;
  ProcessNormalMsg : Envelope -> N * option error;
  ProcessConfigUpdateMsg : Envelope -> option Envelope * N * option error
}.

End Processor.

(** The methods of [StandardChannelSupport] that [SystemChannel] calls.
    Each is a read of the channel's current state. *)
Record StandardChannelSupport : Type := {
  Sequence : N;
  ChainID : string;
  Signer : option crypto.LocalSigner
}.

(** [StandardChannel]: its support, and its three [Processor] methods,
    whose bodies are in another file of the package. *)
Module StandardChannel.

Record t : Type := {
  support : StandardChannelSupport;
  ClassifyMsg : option ChannelHeader -> Classification * option error;
  ProcessNormalMsg : Envelope -> N * option error;
  ProcessConfigUpdateMsg : Envelope -> option Envelope * N * option error
}.

End StandardChannel.

Record SystemChannelSupport : Type := {
  NewChannelConfig : Envelope -> configtxapi.Manager + error
}.

Module SystemChannel.

(** [SystemChannel] embeds a [*StandardChannel]. *)
Record t : Type := {
  StandardChannel_ : StandardChannel.t;
  systemChannelSupport : SystemChannelSupport
}.

Definition support (s : t) : StandardChannelSupport :=
  StandardChannel.support (StandardChannel_ s).

Definition ProcessNormalMsg (s : t) (msg : Envelope) : N * option error :=
  match utils.ChannelID msg with
  | (_, Some err) => (0%N, Some err)
  | (channelID, None) =>
      if decide (channelID <> ChainID (support s))
      then (0%N, Some ErrChannelDoesNotExist)
      else StandardChannel.ProcessNormalMsg (StandardChannel_ s) msg
  end.

Definition ProcessConfigUpdateMsg (s : t) (envConfigUpdate : Envelope)
    : option Envelope * N * option error :=
  match utils.ChannelID envConfigUpdate with
  | (_, Some err) => (None, 0%N, Some err)
  | (channelID, None) =>
      if decide (channelID = ChainID (support s))
      then StandardChannel.ProcessConfigUpdateMsg (StandardChannel_ s) envConfigUpdate
      else
        match NewChannelConfig (systemChannelSupport s) envConfigUpdate with
        | inr err => (None, 0%N, Some err)
        | inl ctxm =>
            match configtxapi.ProposeConfigUpdate ctxm envConfigUpdate with
            | inr err => (None, 0%N, Some err)
            | inl newChannelConfigEnv =>
                match utils.CreateSignedEnvelope HeaderType_CONFIG channelID
                        (Signer (support s))
                        (Some (MsgConfigEnvelope newChannelConfigEnv))
                        msgVersion epoch with
                | (_, Some err) => (None, 0%N, Some err)
                | (newChannelEnvConfig, None) =>
                    match utils.CreateSignedEnvelope HeaderType_ORDERER_TRANSACTION
                            (ChainID (support s)) (Signer (support s))
                            (MsgEnvelope <$> newChannelEnvConfig)
                            msgVersion epoch with
                    | (_, Some err) => (None, 0%N, Some err)
                    | (wrappedOrdererTransaction, None) =>
                        (wrappedOrdererTransaction, Sequence (support s), None)
                    end
                end
            end
        end
  end.

(** [SystemChannel] as a [Processor]: [ClassifyMsg] is promoted from the
    embedded [StandardChannel]. *)
Definition processor (s : t) : Processor.t :=
  {| Processor.ClassifyMsg := StandardChannel.ClassifyMsg (StandardChannel_ s);
     Processor.ProcessNormalMsg := ProcessNormalMsg s;
     Processor.ProcessConfigUpdateMsg := ProcessConfigUpdateMsg s |}.

End SystemChannel.

End msgprocessor.

(** ** [orderer/consensus]: what a chain gets from its host *)

Module consensus.

Import Go cb msgprocessor.

(** [time.Duration] is an [int64] count of nanoseconds. *)
Definition Duration : Type := Z.

(** The methods of the interface [ConsenterSupport] that the solo chain
    calls, over the state [S] of the host (configuration, cutter, ledger).
    [ClassifyMsg] and [ProcessNormalMsg] are the embedded [Processor], read
    against the current state; the cutter's [Ordered] and [Cut] and the two
    writes change it.  [BlockCutter_Ordered] is [BlockCutter().Ordered],
    [SharedConfig_BatchTimeout] is [SharedConfig().BatchTimeout()]. *)
Class ConsenterSupport (S : Type) : Type := {
  ClassifyMsg : S -> option ChannelHeader -> Classification * option error;
  ProcessNormalMsg : S -> Envelope -> N * option error;
  BlockCutter_Ordered : S -> Envelope -> slice (slice Envelope) * bool * S;
  BlockCutter_Cut : S -> slice Envelope * S;
  CreateNextBlock : S -> slice Envelope -> Block;
  WriteBlock : S -> Block -> slice byte -> S;
  WriteConfigBlock : S -> Block -> slice byte -> S;
  SharedConfig_BatchTimeout : S -> Duration
}.

End consensus.

(** ** Package [solo] *)

Module solo.

Import Go cb msgprocessor consensus.

(** What the chain does to the outside, in order: the answers of the block
    cutter, the blocks handed to the ledger, the log lines, and the closing
    of the exit channel. *)
Inductive event : Type :=
| EvOrdered (msg : Envelope) (batches : slice (slice Envelope)) (ok : bool)
| EvCut (batch : slice Envelope)
| EvWriteBlock (block : Block)
| EvWriteConfigBlock (block : Block)
| EvWarning (format : string)
| EvDebug (format : string)
| EvCloseExitChan.

(** The variable [timer] of [main]: [nil], or the channel of a
    [time.After d]. *)
Definition timer_chan : Type := option Duration.

(** The three cases of the [select] in [main]. *)
Inductive main_case : Type :=
| RecvSendChan (msg : Envelope)
| RecvTimer
| RecvExitChan.

(** How one iteration of [for { select ... }] ends: back to the [select]
    with the new value of [timer] (falling off the end of a case, or
    [continue]), or [return]. *)
Inductive control : Type :=
| Continue (timer : timer_chan)
| Return.

Section chain.

Context {S : Type} `{ConsenterSupport S}.

(** *** The loop's monad: host state, trace, panic *)

Inductive outcome (A : Type) : Type :=
| Ok (a : A) (s : S) (tr : list event)
| Panic (msg : string).

#[global] Arguments Ok {A} a s tr.
#[global] Arguments Panic {A} msg.

Definition M (A : Type) : Type := S -> outcome A.

Definition ret {A} (a : A) : M A := fun s => Ok a s [].

Definition bind {A B} (m : M A) (k : A -> M B) : M B := fun s =>
  match m s with
  | Panic msg => Panic msg
  | Ok a s1 tr1 =>
      match k a s1 with
      | Panic msg => Panic msg
      | Ok b s2 tr2 => Ok b s2 (tr1 ++ tr2)
      end
  end.

#[export] Instance M_ret : MRet M := @ret.
#[export] Instance M_bind : MBind M := fun A B k m => bind m k.

Definition emit (e : event) : M unit := fun s => Ok tt s [e].

(** [logger.Panicf] logs and panics; nothing recovers. *)
Definition Panicf {A} (format : string) : M A := fun _ => Panic format.
Definition Warningf (format : string) : M unit := emit (EvWarning format).
Definition Debugf (format : string) : M unit := emit (EvDebug format).

(** The calls on [ch.support]. *)
Definition support_ClassifyMsg (chdr : option ChannelHeader)
    : M (Classification * option error) :=
  fun s => Ok (ClassifyMsg s chdr) s [].

Definition support_ProcessNormalMsg (msg : Envelope) : M (N * option error) :=
  fun s => Ok (ProcessNormalMsg s msg) s [].

Definition support_BlockCutter_Ordered (msg : Envelope)
    : M (slice (slice Envelope) * bool) :=
  fun s =>
    let '(batches, ok, s') := BlockCutter_Ordered s msg in
    Ok (batches, ok) s' [EvOrdered msg batches ok].

Definition support_BlockCutter_Cut : M (slice Envelope) :=
  fun s =>
    let '(batch, s') := BlockCutter_Cut s in
    Ok batch s' [EvCut batch].

Definition support_CreateNextBlock (batch : slice Envelope) : M Block :=
  fun s => Ok (CreateNextBlock s batch) s [].

Definition support_WriteBlock (block : Block) (md : slice byte) : M unit :=
  fun s => Ok tt (WriteBlock s block md) [EvWriteBlock block].

Definition support_WriteConfigBlock (block : Block) (md : slice byte) : M unit :=
  fun s => Ok tt (WriteConfigBlock s block md) [EvWriteConfigBlock block].

Definition support_SharedConfig_BatchTimeout : M Duration :=
  fun s => Ok (SharedConfig_BatchTimeout s) s [].

(** [for _, x := range l { body }] *)
Fixpoint for_range {A} (l : list A) (body : A -> M unit) : M unit :=
  match l with
  | [] => ret tt
  | x :: l' => bind (body x) (fun _ => for_range l' body)
  end.

(** *** [main]: one iteration *)

(** [case msg := <-ch.sendChan] *)
Definition main_recv_sendChan (msg : Envelope) (timer : timer_chan) : M control :=
  match utils.ChannelHeader msg with
  | (_, Some err) =>
      Panicf "If a message has arrived to this point, it should already have had its header inspected once"
  | (chdr, None) =>
      '(class, err) ← support_ClassifyMsg chdr;
      match err with
      | Some _ =>
          Panicf "If a message has arrived to this point, it should already have been classified once: %s"
      | None =>
          if decide (class = ConfigUpdateMsg) then
            '(_, err) ← support_ProcessNormalMsg msg;
            match err with
            | Some _ =>
                Warningf "Discarding bad config message: %s";;
                mret (Continue timer)
            | None =>
                batch ← support_BlockCutter_Cut;
                (if is_nil batch then mret tt
                 else block ← support_CreateNextBlock batch;
                      support_WriteBlock block None);;
                block ← support_CreateNextBlock (Some [msg]);
                support_WriteConfigBlock block None;;
                mret (Continue None)
            end
          else if decide (class = NormalMsg) then
            '(_, err) ← support_ProcessNormalMsg msg;
            match err with
            | Some _ =>
                Warningf "Discarding bad normal message: %s";;
                mret (Continue timer)
            | None =>
                '(batches, ok) ← support_BlockCutter_Ordered msg;
                if ok && bool_decide (len batches = 0) && bool_decide (timer = None) then
                  d ← support_SharedConfig_BatchTimeout;
                  mret (Continue (Some d))
                else
                  for_range (elems batches) (fun batch =>
                    block ← support_CreateNextBlock batch;
                    support_WriteBlock block None);;
                  mret (Continue (if bool_decide (0 < len batches) then None else timer))
            end
          else
            Panicf "Unsupported msg classification: %v"
      end
  end.

(** [case <-timer] *)
Definition main_recv_timer : M control :=
  batch ← support_BlockCutter_Cut;
  if bool_decide (len batch = 0) then
    Warningf "Batch timer expired with no pending requests, this might indicate a bug";;
    mret (Continue None)
  else
    Debugf "Batch timer expired, creating block";;
    block ← support_CreateNextBlock batch;
    support_WriteBlock block None;;
    mret (Continue None).

(** [case <-ch.exitChan] *)
Definition main_recv_exitChan : M control :=
  Debugf "Exiting";;
  mret Return.

(** The body of the [for]: the case the [select] took, then its code. *)
Definition main_iter (c : main_case) (timer : timer_chan) : M control :=
  match c with
  | RecvSendChan msg => main_recv_sendChan msg timer
  | RecvTimer => main_recv_timer
  | RecvExitChan => main_recv_exitChan
  end.

(** [main] from the value [timer] has at the [select], along the cases the
    successive [select]s take; [Continue timer'] when the cases are used up
    and the loop is back at its [select]. *)
Fixpoint main_from (timer : timer_chan) (cases : list main_case) : M control :=
  match cases with
  | [] => mret (Continue timer)
  | c :: cases' =>
      ctl ← main_iter c timer;
      match ctl with
      | Continue timer' => main_from timer' cases'
      | Return => mret Return
      end
  end.

(** [func (ch *chain) main()]: [var timer <-chan time.Time] starts [nil]. *)
Definition main (cases : list main_case) : M control := main_from None cases.

(** *** The chain and the goroutines around it

    [sendChan] is unbuffered: a send and a receive meet only when one side
    is already blocked on it, so the channel itself holds nothing.
    [exitChan] is only ever closed.

    A [select] without [default] is evaluated in one atomic step of the Go
    run time: if some case can proceed, one of those is taken; otherwise the
    goroutine blocks on all its channels at once.  A send on [sendChan] can
    proceed when the receiver is blocked in its [select], a receive when a
    sender is; a receive from [exitChan] can proceed when it is closed.
    [close] wakes every goroutine blocked on the channel, and a [select]
    woken that way has taken that case. *)

(** A call of [Order]: about to evaluate its [select], blocked in it, or
    returned. *)
Inductive order_call : Type :=
| OrderSelect (env : Envelope)
| OrderBlocked (env : Envelope)
| OrderReturned (err : option error).

(** A call of [Halt]: about to evaluate its [select], in the [default] case
    about to [close], or returned. *)
Inductive halt_call : Type :=
| HaltSelect
| HaltDefault
| HaltReturned.

(** The goroutine of [main]: not yet started, about to evaluate the
    [select], blocked in it, or returned. *)
Inductive main_goroutine : Type :=
| MainNotStarted
| MainSelect (timer : timer_chan)
| MainBlocked (timer : timer_chan)
| MainReturned.

Record chain : Type := {
  support : S;
  exitChan : signal;
  main_g : main_goroutine;
  orders : list order_call;
  halts : list halt_call;
  trace : list event
}.

Definition set_support (ch : chain) (s : S) : chain :=
  {| support := s; exitChan := exitChan ch; main_g := main_g ch;
     orders := orders ch; halts := halts ch; trace := trace ch |}.

Definition set_exitChan (ch : chain) (c : signal) : chain :=
  {| support := support ch; exitChan := c; main_g := main_g ch;
     orders := orders ch; halts := halts ch; trace := trace ch |}.

Definition set_main_g (ch : chain) (g : main_goroutine) : chain :=
  {| support := support ch; exitChan := exitChan ch; main_g := g;
     orders := orders ch; halts := halts ch; trace := trace ch |}.

Definition set_orders (ch : chain) (os : list order_call) : chain :=
  {| support := support ch; exitChan := exitChan ch; main_g := main_g ch;
     orders := os; halts := halts ch; trace := trace ch |}.

Definition set_halts (ch : chain) (hs : list halt_call) : chain :=
  {| support := support ch; exitChan := exitChan ch; main_g := main_g ch;
     orders := orders ch; halts := hs; trace := trace ch |}.

Definition log (ch : chain) (tr : list event) : chain :=
  {| support := support ch; exitChan := exitChan ch; main_g := main_g ch;
     orders := orders ch; halts := halts ch; trace := trace ch ++ tr |}.

(** What a step of some goroutine makes of the chain: a new state, a panic
    of the process, or nothing because the step cannot be taken. *)
Inductive result : Type :=
| Step (ch : chain)
| Crash (msg : string)
| Disabled.

Definition newChain (support : S) : chain :=
  {| support := support; exitChan := Open; main_g := MainNotStarted;
     orders := []; halts := []; trace := [] |}.

(** [HandleChain] ignores the metadata and cannot fail. *)
Definition HandleChain (support : S) (metadata : slice byte) : chain * option error :=
  (newChain support, None).

(** [Start]: [go ch.main()].  The host starts a chain once. *)
Definition Start (ch : chain) : result :=
  match main_g ch with
  | MainNotStarted => Step (set_main_g ch (MainSelect None))
  | _ => Disabled
  end.

(** [Errored] hands out [exitChan]. *)
Definition Errored (ch : chain) : signal := exitChan ch.

(** The goroutine of [main] takes case [c] of its [select] and runs the
    iteration to its end. *)
Definition main_takes (c : main_case) (timer : timer_chan) (ch : chain) : result :=
  match main_iter c timer (support ch) with
  | Panic msg => Crash msg
  | Ok ctl s tr =>
      Step (set_main_g (log (set_support ch s) tr)
              match ctl with
              | Continue timer' => MainSelect timer'
              | Return => MainReturned
              end)
  end.

(** **** [Order] and [Configure] *)

(** The cases of the [select] in [Order], and blocking. *)
Inductive order_pick : Type :=
| SendSendChan
| OrderRecvExitChan
| OrderBlock.

(** The [select] of [Order], for a call with envelope [env]: given whether
    [main] is blocked at its [select] and the state of [exitChan], what the
    call becomes when the run time picks [c], and the envelope handed to
    [main] if any.  [None]: the run time cannot pick [c]. *)
Definition Order_select (env : Envelope) (c : order_pick)
    (receiver_blocked : bool) (exit : signal) : option (order_call * option Envelope) :=
  match c with
  | SendSendChan =>
      if receiver_blocked then Some (OrderReturned None, Some env) else None
  | OrderRecvExitChan =>
      if ready exit then Some (OrderReturned (Some (Errorf "Exiting")), None) else None
  | OrderBlock =>
      if receiver_blocked || ready exit then None else Some (OrderBlocked env, None)
  end.

(** [Order] starts at its [select]; [configSeq] is not used. *)
Definition Order (env : Envelope) (configSeq : N) : order_call := OrderSelect env.

Definition Configure (configUpdate config : Envelope) (configSeq : N) : order_call :=
  Order config configSeq.

Definition main_blocked (ch : chain) : bool :=
  match main_g ch with
  | MainBlocked _ => true
  | _ => false
  end.

Definition is_blocked (o : order_call) : bool :=
  match o with
  | OrderBlocked _ => true
  | _ => false
  end.

(** Call [i] of [Order] evaluates its [select] and the run time picks [c]. *)
Definition order_step (i : nat) (c : order_pick) (ch : chain) : result :=
  match orders ch !! i with
  | Some (OrderSelect env) =>
      match Order_select env c (main_blocked ch) (exitChan ch) with
      | None => Disabled
      | Some (o, handed) =>
          let ch' := set_orders ch (<[i := o]> (orders ch)) in
          match handed, main_g ch with
          | Some msg, MainBlocked timer => main_takes (RecvSendChan msg) timer ch'
          | Some _, _ => Disabled
          | None, _ => Step ch'
          end
      end
  | _ => Disabled
  end.

(** **** [main] at its [select] *)

Inductive main_pick : Type :=
| PickSendChan (i : nat)
| PickTimer
| PickExitChan
| MainBlock.

Definition main_step (c : main_pick) (ch : chain) : result :=
  match main_g ch with
  | MainSelect timer =>
      match c with
      | PickSendChan i =>
          match orders ch !! i with
          | Some (OrderBlocked env) =>
              main_takes (RecvSendChan env) timer
                (set_orders ch (<[i := OrderReturned None]> (orders ch)))
          | _ => Disabled
          end
      | PickTimer =>
          match timer with
          | Some _ => main_takes RecvTimer timer ch
          | None => Disabled
          end
      | PickExitChan =>
          if ready (exitChan ch) then main_takes RecvExitChan timer ch else Disabled
      | MainBlock =>
          if existsb is_blocked (orders ch) || ready (exitChan ch) then Disabled
          else Step (set_main_g ch (MainBlocked timer))
      end
  | _ => Disabled
  end.

(** The timer expires while [main] is blocked at its [select]. *)
Definition timer_expires (ch : chain) : result :=
  match main_g ch with
  | MainBlocked (Some d) => main_takes RecvTimer (Some d) ch
  | _ => Disabled
  end.

(** **** [Halt] *)

(** The [select] of [Halt]: the receive if [exitChan] is closed, else
    [default]. *)
Definition Halt_select (exit : signal) : halt_call :=
  if ready exit then HaltReturned else HaltDefault.

Definition wake_order (o : order_call) : order_call :=
  match o with
  | OrderBlocked _ => OrderReturned (Some (Errorf "Exiting"))
  | _ => o
  end.

(** [close(ch.exitChan)]: a panic if it is closed already; otherwise every
    blocked [Order] returns its error and a blocked [main] takes its exit
    case. *)
Definition close_exitChan (ch : chain) : result :=
  match close (exitChan ch) with
  | None => Crash "close of closed channel"
  | Some c =>
      let ch' := log (set_orders (set_exitChan ch c) (wake_order <$> orders ch))
                     [EvCloseExitChan] in
      match main_g ch with
      | MainBlocked timer => main_takes RecvExitChan timer ch'
      | _ => Step ch'
      end
  end.

(** Call [k] of [Halt] takes its next step. *)
Definition halt_step (k : nat) (ch : chain) : result :=
  match halts ch !! k with
  | Some HaltSelect =>
      Step (set_halts ch (<[k := Halt_select (exitChan ch)]> (halts ch)))
  | Some HaltDefault =>
      close_exitChan (set_halts ch (<[k := HaltReturned]> (halts ch)))
  | _ => Disabled
  end.

(** [Halt] run from call to return with no other goroutine in between. *)
Definition Halt (ch : chain) : result :=
  match Halt_select (exitChan ch) with
  | HaltDefault => close_exitChan ch
  | _ => Step ch
  end.

(** **** Schedules *)

Inductive label : Type :=
| CallStart
| CallOrder (env : Envelope) (configSeq : N)
| CallConfigure (configUpdate config : Envelope) (configSeq : N)
| CallHalt
| StepOrder (i : nat) (c : order_pick)
| StepMain (c : main_pick)
| StepHalt (k : nat)
| TimerExpires.

Definition step (l : label) (ch : chain) : result :=
  match l with
  | CallStart => Start ch
  | CallOrder env configSeq =>
      Step (set_orders ch (orders ch ++ [Order env configSeq]))
  | CallConfigure configUpdate config configSeq =>
      Step (set_orders ch (orders ch ++ [Configure configUpdate config configSeq]))
  | CallHalt => Step (set_halts ch (halts ch ++ [HaltSelect]))
  | StepOrder i c => order_step i c ch
  | StepMain c => main_step c ch
  | StepHalt k => halt_step k ch
  | TimerExpires => timer_expires ch
  end.

Fixpoint run (ls : list label) (ch : chain) : result :=
  match ls with
  | [] => Step ch
  | l :: ls' =>
      match step l ch with
      | Step ch' => run ls' ch'
      | r => r
      end
  end.

(** The states a chain built by [newChain] can get into. *)
Definition reachable (ch : chain) : Prop :=
  exists support ls, run ls (newChain support) = Step ch.

(** [n] calls of [Halt], one after the other. *)
Fixpoint Halts (n : nat) (ch : chain) : result :=
  match n with
  | 0 => Step ch
  | Datatypes.S n' =>
      match Halt ch with
      | Step ch' => Halts n' ch'
      | r => r
      end
  end.

(** What a call of [Order] has returned, if it has. *)
Definition order_result (o : order_call) : option (option error) :=
  match o with
  | OrderReturned err => Some err
  | _ => None
  end.

(** A call of [Order] with envelope [env] that has not returned. *)
Definition waiting (o : option order_call) (env : Envelope) : Prop :=
  o = Some (OrderSelect env) \/ o = Some (OrderBlocked env).

(** [main] has taken [env] from [sendChan] and run its iteration on it. *)
Definition handed_to_main (ch ch' : chain) (env : Envelope) : Prop :=
  exists timer ctl s tr,
    main_iter (RecvSendChan env) timer (support ch) = Ok ctl s tr
    /\ support ch' = s /\ trace ch' = trace ch ++ tr.

(** Once [exitChan] is closed no goroutine is blocked on it. *)
Definition exit_wakes (ch : chain) : Prop :=
  exitChan ch = Closed ->
  main_blocked ch = false /\ Forall (fun o => is_blocked o = false) (orders ch).

(** How often the exit channel was closed. *)
Definition closes (tr : list event) : nat :=
  length (tr ≫= fun e =>
            match e with
            | EvCloseExitChan => [tt]
            | _ => []
            end).

(** The two invariants of a chain: nobody stays blocked on a closed exit
    channel, and the exit channel is closed if and only if it was closed
    once. *)
Definition chain_inv (ch : chain) : Prop :=
  exit_wakes ch /\ closes (trace ch) = if ready (exitChan ch) then 1 else 0.

End chain.

End solo.

(** ** What the ordering guarantee asks of the host

    The block cutter keeps a pending batch and hands messages out in the
    order it was given them; the ledger writer leaves the cutter alone; a
    block created from a batch carries that batch. *)

Module ordering.

Import Go cb consensus solo.

Class OrderPreservingSupport (S : Type) `{ConsenterSupport S} : Type := {
  cutter_pending : S -> list Envelope;
  Ordered_keeps_order : forall s msg batches ok s',
    BlockCutter_Ordered s msg = (batches, ok, s') ->
    concat (elems <$> elems batches) ++ cutter_pending s'
    = cutter_pending s ++ (if ok then [msg] else []);
  Cut_takes_pending : forall s batch s',
    BlockCutter_Cut s = (batch, s') ->
    elems batch = cutter_pending s /\ cutter_pending s' = [];
  WriteBlock_keeps_pending : forall s block md,
    cutter_pending (WriteBlock s block md) = cutter_pending s;
  WriteConfigBlock_keeps_pending : forall s block md,
    cutter_pending (WriteConfigBlock s block md) = cutter_pending s;
  CreateNextBlock_Data : forall s batch,
    Data (CreateNextBlock s batch) = elems batch
}.

Section observations.

Context {S : Type} `{ConsenterSupport S}.

(** The blocks handed to the ledger, in order, by either write. *)
Definition blocks_written (tr : list event) : list Block :=
  tr ≫= fun e =>
    match e with
    | EvWriteBlock block => [block]
    | EvWriteConfigBlock block => [block]
    | _ => []
    end.

Definition ordinary_blocks (tr : list event) : list Block :=
  tr ≫= fun e =>
    match e with
    | EvWriteBlock block => [block]
    | _ => []
    end.

Definition config_blocks (tr : list event) : list Block :=
  tr ≫= fun e =>
    match e with
    | EvWriteConfigBlock block => [block]
    | _ => []
    end.

(** The batches the cutter handed out, in order. *)
Definition cutter_batches (tr : list event) : list (list Envelope) :=
  tr ≫= fun e =>
    match e with
    | EvOrdered _ batches _ => elems <$> elems batches
    | EvCut batch => [elems batch]
    | _ => []
    end.

(** A message is accepted in state [s] when its header can be re-derived,
    it classifies, it passes re-validation ([ProcessNormalMsg] returns no
    error) and, for a normal message, the cutter reports [ok] for it. *)
Definition accepted (s : S) (msg : Envelope) : bool :=
  match utils.ChannelHeader msg with
  | (chdr, None) =>
      match ClassifyMsg s chdr, ProcessNormalMsg s msg with
      | (class, None), (_, None) =>
          if decide (class = msgprocessor.ConfigUpdateMsg) then true
          else if decide (class = msgprocessor.NormalMsg)
               then snd (fst (BlockCutter_Ordered s msg))
               else false
      | _, _ => false
      end
  | _ => false
  end.

(** What the message of a case adds to the accepted messages. *)
Definition accepted_of (c : main_case) (s : S) : list Envelope :=
  match c with
  | RecvSendChan msg => if accepted s msg then [msg] else []
  | _ => []
  end.

(** The accepted messages among those the loop receives, in the order it
    receives them, each judged in the state the loop is in at that point. *)
Fixpoint accepted_messages (timer : timer_chan) (cases : list main_case) (s : S)
    : list Envelope :=
  match cases with
  | [] => []
  | c :: cases' =>
      accepted_of c s ++
      match main_iter c timer s with
      | Ok (Continue timer') s' _ => accepted_messages timer' cases' s'
      | _ => []
      end
  end.

(** What the [for] over the completed batches does. *)
Fixpoint write_batches (s : S) (batches : list (slice Envelope)) : S * list Block :=
  match batches with
  | [] => (s, [])
  | batch :: batches' =>
      let block := CreateNextBlock s batch in
      let '(s', blocks) := write_batches (WriteBlock s block None) batches' in
      (s', block :: blocks)
  end.

End observations.

End ordering.

(** ** A host to run examples on

    A system channel named ["system"] whose cutter cuts at a message count
    and refuses messages above a size; its ledger is the list of blocks
    written. *)

Module testhost.

Import Go cb msgprocessor consensus solo ordering.

Definition signer : crypto.LocalSigner :=
  {| crypto.NewSignatureHeader := inl {| Creator := [Byte.x01]; Nonce := [Byte.x02] |};
     crypto.Sign := fun _ => inl [Byte.x2a] |}.

(** Modelled from the spec: the classifier "maps CONFIG_UPDATE to
    ConfigUpdateMsg; all other recognized types to NormalMsg" and fails on a
    header that "cannot be interpreted or carries an unsupported type". *)
Definition classify (chdr : option ChannelHeader) : Classification * option error :=
  match chdr with
  | None => (NormalMsg, Some (Errorf "malformed header"))
  | Some h =>
      match Type_ h with
      | HeaderType_CONFIG_UPDATE => (ConfigUpdateMsg, None)
      | HeaderType_other _ => (NormalMsg, Some (Errorf "unsupported type"))
      | _ => (NormalMsg, None)
      end
  end.

Definition standard : StandardChannel.t :=
  {| StandardChannel.support := {| Sequence := 7; ChainID := "system"; Signer := Some signer |};
     StandardChannel.ClassifyMsg := classify;
     StandardChannel.ProcessNormalMsg := fun _ => (7%N, None);
     StandardChannel.ProcessConfigUpdateMsg := fun env => (Some env, 7%N, None) |}.

Definition genesis : ConfigEnvelope := {| Config := [Byte.x67] |}.

Definition system : SystemChannel.t :=
  {| SystemChannel.StandardChannel_ := standard;
     SystemChannel.systemChannelSupport :=
       {| NewChannelConfig := fun _ =>
            inl {| configtxapi.ProposeConfigUpdate := fun _ => inl genesis |} |} |}.

Record host : Type := {
  MaxMessageCount : nat;
  AbsoluteMaxBytes : nat;
  pendingBatch : slice Envelope;
  ledger : list Block
}.

Definition set_pendingBatch (s : host) (p : slice Envelope) : host :=
  {| MaxMessageCount := MaxMessageCount s; AbsoluteMaxBytes := AbsoluteMaxBytes s;
     pendingBatch := p; ledger := ledger s |}.

Definition append_block (s : host) (block : Block) : host :=
  {| MaxMessageCount := MaxMessageCount s; AbsoluteMaxBytes := AbsoluteMaxBytes s;
     pendingBatch := pendingBatch s; ledger := ledger s ++ [block] |}.

Definition size (msg : Envelope) : nat :=
  match Envelope_Payload msg with
  | Some (mkPayload _ (MsgBytes b)) => length b
  | _ => 0
  end.

Definition Ordered (s : host) (msg : Envelope) : slice (slice Envelope) * bool * host :=
  if bool_decide (AbsoluteMaxBytes s < size msg) then (None, false, s)
  else
    let batch := elems (pendingBatch s) ++ [msg] in
    if bool_decide (MaxMessageCount s <= length batch)
    then (Some [Some batch], true, set_pendingBatch s None)
    else (None, true, set_pendingBatch s (Some batch)).

Definition Cut (s : host) : slice Envelope * host :=
  (pendingBatch s, set_pendingBatch s None).

#[global] Instance host_support : ConsenterSupport host := {|
  ClassifyMsg := fun _ => classify;
  ProcessNormalMsg := fun _ => SystemChannel.ProcessNormalMsg system;
  BlockCutter_Ordered := Ordered;
  BlockCutter_Cut := Cut;
  CreateNextBlock := fun s batch =>
    {| Number := N.of_nat (length (ledger s)); Data := elems batch |};
  WriteBlock := fun s block _ => append_block s block;
  WriteConfigBlock := fun s block _ => append_block s block;
  SharedConfig_BatchTimeout := fun _ => 2000000000%Z
|}.

(** A host that cuts at [n] messages and takes messages of up to 8 bytes. *)
Definition host0 (n : nat) : host :=
  {| MaxMessageCount := n; AbsoluteMaxBytes := 8; pendingBatch := None; ledger := [] |}.

(** The same host with the messages [l] pending in the cutter. *)
Definition host_pending (n : nat) (l : list Envelope) : host :=
  set_pendingBatch (host0 n) (Some l).

Definition envelope (ty : HeaderType) (channel : string) (data : bytes) : Envelope :=
  mkEnvelope
    (Some (mkPayload
             (Some (mkHeader (Some (utils.MakeChannelHeader ty 0 channel 0))
                             {| Creator := []; Nonce := [] |}))
             (MsgBytes data)))
    [].

Definition tx (b : byte) : Envelope :=
  envelope HeaderType_ENDORSER_TRANSACTION "system" [b].

Definition tx1 : Envelope := tx Byte.x01.
Definition tx2 : Envelope := tx Byte.x02.
Definition tx3 : Envelope := tx Byte.x03.

(** A transaction of nine bytes, which the cutter refuses. *)
Definition big_tx : Envelope :=
  envelope HeaderType_ENDORSER_TRANSACTION "system" (repeat Byte.x00 9).

(** A transaction for a channel that does not exist. *)
Definition stray_tx : Envelope :=
  envelope HeaderType_ENDORSER_TRANSACTION "nochan" [Byte.x01].

Definition config_update : Envelope :=
  envelope HeaderType_CONFIG_UPDATE "system" [Byte.x63].

Definition create_newchan : Envelope :=
  envelope HeaderType_CONFIG_UPDATE "newchan" [Byte.x6e].

(** An envelope whose payload does not unmarshal. *)
Definition garbage : Envelope := mkEnvelope None [].

(** An envelope with a type no class is defined for. *)
Definition odd_type : Envelope :=
  envelope (HeaderType_other 99) "system" [].

(** The chain over [s] after the schedule [ls]. *)
Definition chain_after (ls : list label) (s : host) : chain :=
  match run ls (newChain s) with
  | Step ch => ch
  | _ => newChain s
  end.

(** [main] is blocked at its [select] and a call of [Order] is about to
    evaluate its own. *)
Definition idle_chain : chain :=
  chain_after [CallStart; StepMain MainBlock; CallOrder tx1 7] (host0 2).

(** The chain was halted while [main] was busy, and a call of [Order] is
    about to evaluate its [select]. *)
Definition halted_chain : chain :=
  chain_after [CallStart; CallOrder tx1 7; CallHalt; StepHalt 0; StepHalt 0] (host0 2).

(** [idle_chain] after the call has run. *)
Definition served_chain : chain :=
  chain_after [CallStart; StepMain MainBlock; CallOrder tx1 7;
               StepOrder 0 SendSendChan] (host0 2).

(** [halted_chain] after the call has run. *)
Definition refused_chain : chain :=
  chain_after [CallStart; CallOrder tx1 7; CallHalt; StepHalt 0; StepHalt 0;
               StepOrder 0 OrderRecvExitChan] (host0 2).

End testhost.

(** ** Further observations of a run *)

Module runs.

Import Go cb msgprocessor consensus solo ordering.

Section observations.

Context {S : Type} `{ConsenterSupport S}.

(** The header of [msg] can be re-derived and, in state [s], classifies as
    one of the two classes: the message does not panic the loop. *)
Definition classified (s : S) (msg : Envelope) : bool :=
  match utils.ChannelHeader msg with
  | (chdr, None) =>
      match ClassifyMsg s chdr with
      | (class, None) => bool_decide (class = ConfigUpdateMsg \/ class = NormalMsg)
      | _ => false
      end
  | _ => false
  end.

(** [msg] is of class [ConfigUpdateMsg] in state [s] and passes
    re-validation there. *)
Definition config_accepted (s : S) (msg : Envelope) : bool :=
  match utils.ChannelHeader msg with
  | (chdr, None) =>
      match ClassifyMsg s chdr, ProcessNormalMsg s msg with
      | (class, None), (_, None) => bool_decide (class = ConfigUpdateMsg)
      | _, _ => false
      end
  | _ => false
  end.

Definition config_accepted_of (c : main_case) (s : S) : list Envelope :=
  match c with
  | RecvSendChan msg => if config_accepted s msg then [msg] else []
  | _ => []
  end.

(** The accepted config-class messages of a run, in the order received. *)
Fixpoint accepted_config_messages (timer : timer_chan) (cases : list main_case) (s : S)
    : list Envelope :=
  match cases with
  | [] => []
  | c :: cases' =>
      config_accepted_of c s ++
      match main_iter c timer s with
      | Ok (Continue timer') s' _ => accepted_config_messages timer' cases' s'
      | _ => []
      end
  end.

(** The cases that cut whatever is pending: the timer, and an accepted
    config-class message. *)
Definition flushes (c : main_case) (s : S) : bool :=
  match c with
  | RecvSendChan msg => config_accepted s msg
  | RecvTimer => true
  | RecvExitChan => false
  end.

End observations.

(** The value of [timer] a goroutine of [main] holds. *)
Definition timer_of (g : main_goroutine) : timer_chan :=
  match g with
  | MainSelect timer => timer
  | MainBlocked timer => timer
  | _ => None
  end.

(** The warning of the timer case for an empty cut. *)
Definition no_pending_warning : event :=
  EvWarning "Batch timer expired with no pending requests, this might indicate a bug".

(** A call of [Order] has returned [nil]. *)
Definition served (o : order_call) : Prop := o = OrderReturned None.

End runs.

(** ** More examples *)

Module testcases.

Import Go cb msgprocessor consensus solo ordering testhost.

(** A signer that has lost its key. *)
Definition keyless : crypto.LocalSigner :=
  {| crypto.NewSignatureHeader := inl {| Creator := [Byte.x01]; Nonce := [Byte.x02] |};
     crypto.Sign := fun _ => inr (Errorf "no signing key") |}.

(** The example system channel with that signer. *)
Definition keyless_system : SystemChannel.t :=
  {| SystemChannel.StandardChannel_ :=
       {| StandardChannel.support :=
            {| Sequence := 7; ChainID := "system"; Signer := Some keyless |};
          StandardChannel.ClassifyMsg := classify;
          StandardChannel.ProcessNormalMsg := fun _ => (7%N, None);
          StandardChannel.ProcessConfigUpdateMsg := fun env => (Some env, 7%N, None) |};
     SystemChannel.systemChannelSupport := SystemChannel.systemChannelSupport system |}.

(** The schedule of a chain that is started, serves two calls of [Order],
    sees its timer expire, and is halted. *)
Definition busy_schedule : list label :=
  [CallStart; StepMain MainBlock;
   CallOrder tx1 7; StepOrder 0 SendSendChan;
   CallOrder tx2 7; StepOrder 1 OrderBlock; StepMain (PickSendChan 1);
   CallOrder tx3 7; StepOrder 2 OrderBlock; StepMain (PickSendChan 2);
   StepMain MainBlock; TimerExpires;
   CallHalt; StepHalt 0; StepHalt 0; StepMain PickExitChan].

(** The chain after that schedule: [main] has returned. *)
Definition finished_chain : chain := chain_after busy_schedule (host0 2).

(** Calls made on a chain whose [main] has returned. *)
Definition late_schedule : list label :=
  [CallOrder tx1 7; StepOrder 3 OrderRecvExitChan; CallHalt; StepHalt 1;
   CallConfigure config_update config_update 7].

(** Calls made on a chain that was never started: a call of [Order] that
    blocks, and a call of [Halt]. *)
Definition unstarted_schedule : list label :=
  [CallOrder tx1 7; StepOrder 0 OrderBlock; CallHalt; StepHalt 0; StepHalt 0].

(** A chain over a cutter that holds [tx2], with [main] about to evaluate
    its [select] and a call of [Order] blocked. *)
Definition waiting_chain : chain :=
  chain_after [CallStart; CallOrder tx1 7; StepOrder 0 OrderBlock]
              (host_pending 2 [tx2]).

(** What the loop receives in the examples. *)
Definition mixed_cases : list main_case :=
  [RecvSendChan tx1; RecvSendChan big_tx; RecvSendChan config_update;
   RecvSendChan stray_tx; RecvSendChan tx2; RecvSendChan tx3].

End testcases.

(** * Properties *)

Import Go cb msgprocessor consensus solo ordering.

(** ** The system channel processor *)

Section system_channel.

Variable s : SystemChannel.t.

Local Abbreviation system_id := (ChainID (SystemChannel.support s)).
Local Abbreviation standard := (SystemChannel.StandardChannel_ s).

Lemma ProcessNormalMsg_malformed msg channelID err :
  utils.ChannelID msg = (channelID, Some err) ->
  SystemChannel.ProcessNormalMsg s msg = (0%N, Some err).
Proof.
  intros Hid. unfold SystemChannel.ProcessNormalMsg. by rewrite Hid.
Qed.

Lemma ProcessNormalMsg_other_channel msg channelID :
  utils.ChannelID msg = (channelID, None) ->
  channelID <> system_id ->
  SystemChannel.ProcessNormalMsg s msg = (0%N, Some ErrChannelDoesNotExist).
Proof.
  intros Hid Hne. unfold SystemChannel.ProcessNormalMsg. rewrite Hid.
  by rewrite decide_True.
Qed.

Lemma ProcessNormalMsg_system_channel msg :
  utils.ChannelID msg = (system_id, None) ->
  SystemChannel.ProcessNormalMsg s msg = StandardChannel.ProcessNormalMsg standard msg.
Proof.
  intros Hid. unfold SystemChannel.ProcessNormalMsg. rewrite Hid.
  rewrite decide_False; [done | intros Hne; by apply Hne].
Qed.

(** C4.  For an envelope whose channel ID can be extracted,
    [SystemChannel.ProcessNormalMsg] answers [(0, ErrChannelDoesNotExist)]
    when that ID differs from the system channel's, and otherwise returns
    exactly what [StandardChannel.ProcessNormalMsg] returns for the
    envelope; so, the standard processor not producing
    [ErrChannelDoesNotExist] itself, it fails with that error if and only
    if the two IDs differ. *)
Theorem SystemChannel_ProcessNormalMsg_channel_check
    (msg : Envelope) (channelID : string) :
  utils.ChannelID msg = (channelID, None) ->
  (StandardChannel.ProcessNormalMsg standard msg).2 <> Some ErrChannelDoesNotExist ->
  ((SystemChannel.ProcessNormalMsg s msg).2 = Some ErrChannelDoesNotExist
     <-> channelID <> system_id)
  /\ (channelID <> system_id ->
      SystemChannel.ProcessNormalMsg s msg = (0%N, Some ErrChannelDoesNotExist))
  /\ (channelID = system_id ->
      SystemChannel.ProcessNormalMsg s msg
      = StandardChannel.ProcessNormalMsg standard msg).
Proof.
  intros Hid Hstd.
  assert (Hother := ProcessNormalMsg_other_channel msg channelID Hid).
  assert (Hsame : channelID = system_id ->
                  SystemChannel.ProcessNormalMsg s msg
                  = StandardChannel.ProcessNormalMsg standard msg).
  { intros ->. by apply ProcessNormalMsg_system_channel. }
  split; [| by split].
  split.
  - intros Herr Heq. apply Hstd. by rewrite <- (Hsame Heq).
  - intros Hne. by rewrite (Hother Hne).
Qed.

(** What [CreateSignedEnvelope] builds when it succeeds. *)
Lemma CreateSignedEnvelope_ok txType channelID signer dataMsg version ep env :
  utils.CreateSignedEnvelope txType channelID signer dataMsg version ep = (env, None) ->
  exists e data,
    env = Some e /\ dataMsg = Some data
    /\ utils.ChannelHeader e
       = (Some (utils.MakeChannelHeader txType version channelID ep), None)
    /\ utils.Data e = Some data
    /\ utils.signed_by signer e.
Proof.
  unfold utils.CreateSignedEnvelope. intros Hc.
  destruct signer as [sg|]; simpl in Hc.
  - destruct (crypto.NewSignatureHeader sg) as [sh|]; [| done].
    destruct dataMsg as [data|]; [| done].
    destruct (crypto.Sign sg _) as [sig|] eqn:Hsig; [| done].
    injection Hc as <-. eexists _, data. by repeat split.
  - destruct dataMsg as [data|]; [| done].
    injection Hc as <-. eexists _, data. by repeat split.
Qed.

(** C3.  A config update for a channel other than the system channel, when
    [SystemChannel.ProcessConfigUpdateMsg] succeeds on it, comes back as an
    envelope of type ORDERER_TRANSACTION addressed to the system channel and
    signed by the local signer, whose payload data is an envelope of type
    CONFIG addressed to the new channel, signed likewise and carrying the
    configuration the fresh manager proposed; the sequence number returned
    is the system channel's [Sequence()]. *)
Theorem SystemChannel_ProcessConfigUpdateMsg_wraps_new_channel
    (envConfigUpdate : Envelope) (channelID : string)
    (config : option Envelope) (configSeq : N) :
  utils.ChannelID envConfigUpdate = (channelID, None) ->
  channelID <> system_id ->
  SystemChannel.ProcessConfigUpdateMsg s envConfigUpdate = (config, configSeq, None) ->
  exists wrapped inner ctxm genesis,
    config = Some wrapped
    /\ utils.ChannelHeader wrapped
       = (Some {| Type_ := HeaderType_ORDERER_TRANSACTION; Version := msgVersion;
                  ChannelId := system_id; Epoch := epoch |}, None)
    /\ utils.signed_by (Signer (SystemChannel.support s)) wrapped
    /\ utils.EmbeddedEnvelope wrapped = Some inner
    /\ utils.ChannelHeader inner
       = (Some {| Type_ := HeaderType_CONFIG; Version := msgVersion;
                  ChannelId := channelID; Epoch := epoch |}, None)
    /\ utils.signed_by (Signer (SystemChannel.support s)) inner
    /\ NewChannelConfig (SystemChannel.systemChannelSupport s) envConfigUpdate = inl ctxm
    /\ configtxapi.ProposeConfigUpdate ctxm envConfigUpdate = inl genesis
    /\ utils.Data inner = Some (MsgConfigEnvelope genesis)
    /\ configSeq = Sequence (SystemChannel.support s).
Proof.
  intros Hid Hne. unfold SystemChannel.ProcessConfigUpdateMsg. rewrite Hid.
  rewrite decide_False by done.
  destruct (NewChannelConfig _ _) as [ctxm|] eqn:Hnew; [| done].
  destruct (configtxapi.ProposeConfigUpdate _ _) as [genesis|] eqn:Hprop; [| done].
  destruct (utils.CreateSignedEnvelope HeaderType_CONFIG _ _ _ _ _)
    as [newChannelEnvConfig [e1|]] eqn:Hin; [done |].
  destruct (utils.CreateSignedEnvelope HeaderType_ORDERER_TRANSACTION _ _ _ _ _)
    as [wrappedOrdererTransaction [e2|]] eqn:Hout; [done |].
  intros [= <- <-].
  apply CreateSignedEnvelope_ok in Hin as (inner & d1 & -> & [= <-] & Hh1 & Hd1 & Hs1).
  apply CreateSignedEnvelope_ok in Hout as (wrapped & d2 & -> & [= <-] & Hh2 & Hd2 & Hs2).
  exists wrapped, inner, ctxm, genesis. repeat split; try done.
  unfold utils.EmbeddedEnvelope. unfold utils.Data in Hd2.
  destruct (Envelope_Payload wrapped) as [p|]; [| done].
  simpl in Hd2. injection Hd2 as ->. done.
Qed.

End system_channel.

(** C4 on the example system channel: a transaction for ["nochan"] is
    refused with [ErrChannelDoesNotExist], one for ["system"] is not. *)
Lemma SystemChannel_ProcessNormalMsg_channel_check_witness :
  SystemChannel.ProcessNormalMsg testhost.system testhost.stray_tx
  = (0%N, Some Go.ErrChannelDoesNotExist)
  /\ SystemChannel.ProcessNormalMsg testhost.system testhost.tx1 = (7%N, None).
Proof.
  split.
  - apply (SystemChannel_ProcessNormalMsg_channel_check
             testhost.system testhost.stray_tx "nochan"); [reflexivity | done | done].
  - pose proof (SystemChannel_ProcessNormalMsg_channel_check
                  testhost.system testhost.tx1 "system" eq_refl) as Hc.
    destruct Hc as (_ & _ & Hsame); [done |].
    rewrite Hsame; reflexivity.
Defined.

(** C3 on the example system channel: creating ["newchan"]. *)
Lemma SystemChannel_ProcessConfigUpdateMsg_wraps_new_channel_witness :
  exists wrapped inner,
    SystemChannel.ProcessConfigUpdateMsg testhost.system testhost.create_newchan
    = (Some wrapped, 7%N, None)
    /\ (utils.ChannelHeader wrapped).1
       = Some (utils.MakeChannelHeader cb.HeaderType_ORDERER_TRANSACTION 0 "system" 0)
    /\ utils.EmbeddedEnvelope wrapped = Some inner
    /\ (utils.ChannelHeader inner).1
       = Some (utils.MakeChannelHeader cb.HeaderType_CONFIG 0 "newchan" 0).
Proof.
  destruct (SystemChannel_ProcessConfigUpdateMsg_wraps_new_channel
              testhost.system testhost.create_newchan "newchan"
              (SystemChannel.ProcessConfigUpdateMsg testhost.system testhost.create_newchan).1.1
              7%N eq_refl)
    as (wrapped & inner & ctxm & genesis & Hc & Hw & _ & He & Hi & _); [done | reflexivity |].
  exists wrapped, inner. repeat split.
  - vm_compute in Hc. rewrite <- Hc. reflexivity.
  - by rewrite Hw.
  - done.
  - by rewrite Hi.
Defined.

(** ** One iteration of the sequencing loop *)

Section sequencing_loop.

Context {S : Type} `{ConsenterSupport S}.

Ltac unfold_M :=
  unfold mbind, M_bind, mret, M_ret, bind, ret,
    support_ClassifyMsg, support_ProcessNormalMsg, support_BlockCutter_Ordered,
    support_BlockCutter_Cut, support_CreateNextBlock, support_WriteBlock,
    support_WriteConfigBlock, support_SharedConfig_BatchTimeout,
    Warningf, Debugf, emit, Panicf in *.

(** The [for] over the completed batches never panics: it creates and
    writes one block per batch, in order. *)
Lemma for_range_writes (batches : list (slice Envelope)) (s : S) :
  for_range batches
    (fun batch => block ← support_CreateNextBlock batch; support_WriteBlock block None) s
  = Ok tt (write_batches s batches).1 (EvWriteBlock <$> (write_batches s batches).2).
Proof.
  revert s. induction batches as [| batch batches IH]; intros s; [done |].
  simpl. unfold bind at 1. unfold mbind, M_bind at 1. unfold bind at 1. simpl.
  rewrite IH. by destruct (write_batches _ batches).
Qed.

Lemma write_batches_created (batches : list (slice Envelope)) (s : S) :
  Forall2 (fun block batch => exists s', block = CreateNextBlock s' batch)
          (write_batches s batches).2 batches.
Proof.
  revert s. induction batches as [| batch batches IH]; intros s; simpl.
  - constructor.
  - specialize (IH (WriteBlock s (CreateNextBlock s batch) None)).
    destruct (write_batches _ batches) as [s' blocks]. simpl in *.
    constructor; [by exists s | done].
Qed.

(** The three ways an arriving message panics the loop. *)
Lemma main_header_failure msg timer s chdr err :
  utils.ChannelHeader msg = (chdr, Some err) ->
  exists format, main_iter (RecvSendChan msg) timer s = Panic format.
Proof.
  intros Hh. simpl. unfold main_recv_sendChan. rewrite Hh. by eexists.
Qed.

Lemma main_classification_failure msg timer s chdr class err :
  utils.ChannelHeader msg = (chdr, None) ->
  ClassifyMsg s chdr = (class, Some err) ->
  exists format, main_iter (RecvSendChan msg) timer s = Panic format.
Proof.
  intros Hh Hc. simpl. unfold main_recv_sendChan. rewrite Hh.
  unfold_M. rewrite Hc. by eexists.
Qed.

Lemma main_unsupported_class msg timer s chdr class :
  utils.ChannelHeader msg = (chdr, None) ->
  ClassifyMsg s chdr = (class, None) ->
  class <> ConfigUpdateMsg -> class <> NormalMsg ->
  exists format, main_iter (RecvSendChan msg) timer s = Panic format.
Proof.
  intros Hh Hc Hn1 Hn2. simpl. unfold main_recv_sendChan. rewrite Hh.
  unfold_M. rewrite Hc. rewrite !decide_False by done. by eexists.
Qed.

(** A message of one of the two classes never panics the loop. *)
Lemma main_supported_class msg timer s chdr class :
  utils.ChannelHeader msg = (chdr, None) ->
  ClassifyMsg s chdr = (class, None) ->
  class = ConfigUpdateMsg \/ class = NormalMsg ->
  exists ctl s' tr, main_iter (RecvSendChan msg) timer s = Ok ctl s' tr.
Proof.
  intros Hh Hc Hclass. simpl. unfold main_recv_sendChan. rewrite Hh.
  unfold_M. rewrite Hc.
  destruct Hclass as [-> | ->]; simpl;
    destruct (ProcessNormalMsg s msg) as [configSeq [err|]] eqn:Hp;
    try by eexists _, _, _.
  - destruct (BlockCutter_Cut s) as [[batch|] s1]; simpl; by eexists _, _, _.
  - destruct (BlockCutter_Ordered s msg) as [[batches ok] s1].
    destruct (ok && _ && _); [by eexists _, _, _ |].
    pose proof (for_range_writes (elems batches) s1) as Hfor.
    unfold_M. simpl in Hfor. rewrite Hfor. by eexists _, _, _.
Qed.

(** The process dies with the loop. *)
Lemma main_takes_crashes c timer (ch : chain) format :
  main_iter c timer (support ch) = Panic format ->
  main_takes c timer ch = Crash format.
Proof. intros Hp. unfold main_takes. by rewrite Hp. Qed.

(** C10.  An arriving message panics the loop exactly when its header
    cannot be re-derived, or its re-classification fails, or the class it
    gets is neither [NormalMsg] nor [ConfigUpdateMsg]; in these cases the
    iteration has no other outcome (no warning, no discard, no block), and
    the panic of the loop is the crash of the process. *)
Theorem main_panics_on_broken_admission (msg : Envelope) (timer : timer_chan) (s : S) :
  ((exists format, main_iter (RecvSendChan msg) timer s = Panic format)
   <-> ((utils.ChannelHeader msg).2 <> None
        \/ (ClassifyMsg s (utils.ChannelHeader msg).1).2 <> None
        \/ ((ClassifyMsg s (utils.ChannelHeader msg).1).1 <> NormalMsg
            /\ (ClassifyMsg s (utils.ChannelHeader msg).1).1 <> ConfigUpdateMsg)))
  /\ (forall (ch : chain) format,
        support ch = s ->
        main_iter (RecvSendChan msg) timer s = Panic format ->
        main_takes (RecvSendChan msg) timer ch = Crash format).
Proof.
  split; [| intros ch format <-; apply main_takes_crashes].
  destruct (utils.ChannelHeader msg) as [chdr [herr|]] eqn:Hh; simpl.
  { split; [by left | intros _; by eapply main_header_failure]. }
  destruct (ClassifyMsg s chdr) as [class [cerr|]] eqn:Hc; simpl.
  { split; [by right; left | intros _; by eapply main_classification_failure]. }
  destruct (decide (class = ConfigUpdateMsg)) as [Hcu | Hcu];
    [| destruct (decide (class = NormalMsg)) as [Hn | Hn]].
  - destruct (main_supported_class msg timer s chdr class Hh Hc) as (ctl & s' & tr & Hok);
      [by left |].
    split.
    + intros [format Hp]. simpl in Hok. rewrite Hok in Hp. done.
    + intros [? | [? | [_ ?]]]; done.
  - destruct (main_supported_class msg timer s chdr class Hh Hc) as (ctl & s' & tr & Hok);
      [by right |].
    split.
    + intros [format Hp]. simpl in Hok. rewrite Hok in Hp. done.
    + intros [? | [? | [? _]]]; done.
  - split; [intros _; right; right; done |].
    intros _. by eapply main_unsupported_class.
Qed.

(** What the loop does with a config-class message that passes
    re-validation, once the cutter has answered [Cut]. *)
Lemma main_config_msg msg timer s chdr configSeq batch s1 :
  utils.ChannelHeader msg = (chdr, None) ->
  ClassifyMsg s chdr = (ConfigUpdateMsg, None) ->
  ProcessNormalMsg s msg = (configSeq, None) ->
  BlockCutter_Cut s = (batch, s1) ->
  main_iter (RecvSendChan msg) timer s
  = let s2 := if is_nil batch then s1
              else WriteBlock s1 (CreateNextBlock s1 batch) None in
    Ok (Continue None)
       (WriteConfigBlock s2 (CreateNextBlock s2 (Some [msg])) None)
       (EvCut batch
          :: (if is_nil batch then [] else [EvWriteBlock (CreateNextBlock s1 batch)])
          ++ [EvWriteConfigBlock (CreateNextBlock s2 (Some [msg]))]).
Proof.
  intros Hh Hc Hp Hcut. simpl. unfold main_recv_sendChan. rewrite Hh.
  unfold_M. rewrite Hc. simpl. rewrite Hp, Hcut.
  by destruct batch.
Qed.

(** C2.  A message of class [ConfigUpdateMsg] that passes re-validation:
    the loop cuts the pending batch; writes it with [WriteBlock] when it is
    not [nil], in particular when it is not empty; then creates a block from
    the one-element batch holding the message, writes it with
    [WriteConfigBlock], and leaves [timer] at [nil].  No other block is
    written, so the message shares its block with nothing. *)
Theorem main_config_msg_gets_own_block
    (msg : Envelope) (timer : timer_chan) (s : S) (chdr : option ChannelHeader)
    (configSeq : N) (batch : slice Envelope) (s1 : S) :
  utils.ChannelHeader msg = (chdr, None) ->
  ClassifyMsg s chdr = (ConfigUpdateMsg, None) ->
  ProcessNormalMsg s msg = (configSeq, None) ->
  BlockCutter_Cut s = (batch, s1) ->
  let flushed := CreateNextBlock s1 batch in
  let s2 := if is_nil batch then s1 else WriteBlock s1 flushed None in
  let flush := if is_nil batch then [] else [EvWriteBlock flushed] in
  let block := CreateNextBlock s2 (Some [msg]) in
  main_iter (RecvSendChan msg) timer s
  = Ok (Continue None) (WriteConfigBlock s2 block None)
       (EvCut batch :: flush ++ [EvWriteConfigBlock block])
  /\ (0 < len batch -> flush = [EvWriteBlock flushed])
  /\ (batch = None -> flush = [] /\ s2 = s1).
Proof.
  intros Hh Hc Hp Hcut.
  rewrite (main_config_msg msg timer s chdr configSeq batch s1 Hh Hc Hp Hcut).
  split; [done |].
  destruct batch as [l |]; simpl.
  - split; [done | done].
  - split; [lia | done].
Qed.

(** An empty, non-[nil] batch from [Cut] is written as well: the test is
    [batch != nil]. *)
Lemma main_config_msg_empty_cut msg timer s chdr configSeq s1 :
  utils.ChannelHeader msg = (chdr, None) ->
  ClassifyMsg s chdr = (ConfigUpdateMsg, None) ->
  ProcessNormalMsg s msg = (configSeq, None) ->
  BlockCutter_Cut s = (Some [], s1) ->
  exists s' block, main_iter (RecvSendChan msg) timer s
    = Ok (Continue None) s'
         [EvCut (Some []); EvWriteBlock (CreateNextBlock s1 (Some [])); EvWriteConfigBlock block].
Proof.
  intros Hh Hc Hp Hcut.
  rewrite (main_config_msg msg timer s chdr configSeq (Some []) s1 Hh Hc Hp Hcut).
  simpl. by eexists _, _.
Qed.

(** A config-class message that fails re-validation is dropped with a
    warning; nothing else changes. *)
Lemma main_config_msg_rejected msg timer s chdr configSeq err :
  utils.ChannelHeader msg = (chdr, None) ->
  ClassifyMsg s chdr = (ConfigUpdateMsg, None) ->
  ProcessNormalMsg s msg = (configSeq, Some err) ->
  main_iter (RecvSendChan msg) timer s
  = Ok (Continue timer) s [EvWarning "Discarding bad config message: %s"].
Proof.
  intros Hh Hc Hp. simpl. unfold main_recv_sendChan. rewrite Hh.
  unfold_M. rewrite Hc. simpl. by rewrite Hp.
Qed.

Lemma main_normal_msg_rejected msg timer s chdr configSeq err :
  utils.ChannelHeader msg = (chdr, None) ->
  ClassifyMsg s chdr = (NormalMsg, None) ->
  ProcessNormalMsg s msg = (configSeq, Some err) ->
  main_iter (RecvSendChan msg) timer s
  = Ok (Continue timer) s [EvWarning "Discarding bad normal message: %s"].
Proof.
  intros Hh Hc Hp. simpl. unfold main_recv_sendChan. rewrite Hh.
  unfold_M. rewrite Hc. simpl. by rewrite Hp.
Qed.

(** What the loop does with a normal message once the cutter has answered. *)
Lemma main_normal_msg msg timer s chdr configSeq batches ok s1 :
  utils.ChannelHeader msg = (chdr, None) ->
  ClassifyMsg s chdr = (NormalMsg, None) ->
  ProcessNormalMsg s msg = (configSeq, None) ->
  BlockCutter_Ordered s msg = (batches, ok, s1) ->
  main_iter (RecvSendChan msg) timer s
  = if ok && bool_decide (len batches = 0) && bool_decide (timer = None)
    then Ok (Continue (Some (SharedConfig_BatchTimeout s1))) s1 [EvOrdered msg batches ok]
    else Ok (Continue (if bool_decide (0 < len batches) then None else timer))
            (write_batches s1 (elems batches)).1
            (EvOrdered msg batches ok
               :: (EvWriteBlock <$> (write_batches s1 (elems batches)).2)).
Proof.
  intros Hh Hc Hp Ho. simpl. unfold main_recv_sendChan. rewrite Hh.
  unfold_M. rewrite Hc. simpl. rewrite Hp, Ho.
  destruct (ok && _ && _); [done |].
  pose proof (for_range_writes (elems batches) s1) as Hfor.
  unfold_M. simpl in Hfor. rewrite Hfor. simpl. by rewrite app_nil_r.
Qed.

(** C5, as the code has it.  A normal message passed re-validation and was
    fed to the cutter.  If the cutter reports [ok] and returns no batch and
    [timer] is [nil], [timer] becomes a [time.After] of the configured batch
    timeout and nothing is written.  If the cutter returns one or more
    batches, a block is created from each and written with [WriteBlock], in
    the order of the batches, and [timer] becomes [nil].  In the remaining
    case nothing is written and [timer] is left as it is. *)
Theorem main_normal_msg_timer_and_batches
    (msg : Envelope) (timer : timer_chan) (s : S) (chdr : option ChannelHeader)
    (configSeq : N) (batches : slice (slice Envelope)) (ok : bool) (s1 : S) :
  utils.ChannelHeader msg = (chdr, None) ->
  ClassifyMsg s chdr = (NormalMsg, None) ->
  ProcessNormalMsg s msg = (configSeq, None) ->
  BlockCutter_Ordered s msg = (batches, ok, s1) ->
  (ok = true -> len batches = 0 -> timer = None ->
   main_iter (RecvSendChan msg) timer s
   = Ok (Continue (Some (SharedConfig_BatchTimeout s1))) s1 [EvOrdered msg batches ok])
  /\ (0 < len batches ->
      main_iter (RecvSendChan msg) timer s
      = Ok (Continue None) (write_batches s1 (elems batches)).1
           (EvOrdered msg batches ok
              :: (EvWriteBlock <$> (write_batches s1 (elems batches)).2))
      /\ Forall2 (fun block batch => exists s', block = CreateNextBlock s' batch)
                 (write_batches s1 (elems batches)).2 (elems batches))
  /\ (len batches = 0 -> ok = false \/ timer <> None ->
      main_iter (RecvSendChan msg) timer s = Ok (Continue timer) s1 [EvOrdered msg batches ok]).
Proof.
  intros Hh Hc Hp Ho.
  rewrite (main_normal_msg msg timer s chdr configSeq batches ok s1 Hh Hc Hp Ho).
  split; [| split].
  - intros -> Hlen ->. by rewrite !bool_decide_eq_true_2 by done.
  - intros Hlen. split; [| apply write_batches_created].
    rewrite (bool_decide_eq_false_2 (len batches = 0)) by lia.
    rewrite andb_false_r. simpl. by rewrite bool_decide_eq_true_2 by done.
  - intros Hlen Hor.
    assert (elems batches = []) as Hnil.
    { destruct batches as [[|]|]; simpl in *; done. }
    rewrite Hnil. simpl.
    rewrite (bool_decide_eq_false_2 (0 < len batches)) by lia.
    destruct Hor as [-> | Ht]; [done |].
    rewrite (bool_decide_eq_false_2 (timer = None)) by done.
    by rewrite andb_false_r.
Qed.

(** What the loop does when the timer case is taken, once the cutter has
    answered [Cut]. *)
Lemma main_timer timer s batch s1 :
  BlockCutter_Cut s = (batch, s1) ->
  main_iter RecvTimer timer s
  = if bool_decide (len batch = 0)
    then Ok (Continue None) s1
           [EvCut batch;
            EvWarning "Batch timer expired with no pending requests, this might indicate a bug"]
    else Ok (Continue None) (WriteBlock s1 (CreateNextBlock s1 batch) None)
           [EvCut batch; EvDebug "Batch timer expired, creating block";
            EvWriteBlock (CreateNextBlock s1 batch)].
Proof.
  intros Hcut. simpl. unfold main_recv_timer. unfold_M. rewrite Hcut.
  by case_bool_decide.
Qed.

(** C6.  When the timer case is taken, the loop cuts the pending batch and
    leaves [timer] at [nil].  If the batch is empty it logs a warning, and
    that is all; otherwise it creates a block from the batch and writes it
    with [WriteBlock], and writes nothing else. *)
Theorem main_timer_expiry
    (timer : timer_chan) (s : S) (batch : slice Envelope) (s1 : S) :
  BlockCutter_Cut s = (batch, s1) ->
  (len batch = 0 ->
   main_iter RecvTimer timer s
   = Ok (Continue None) s1
        [EvCut batch;
         EvWarning "Batch timer expired with no pending requests, this might indicate a bug"])
  /\ (len batch <> 0 ->
      main_iter RecvTimer timer s
      = Ok (Continue None) (WriteBlock s1 (CreateNextBlock s1 batch) None)
           [EvCut batch; EvDebug "Batch timer expired, creating block";
            EvWriteBlock (CreateNextBlock s1 batch)]).
Proof.
  intros Hcut. rewrite (main_timer timer s batch s1 Hcut).
  split; intros Hlen.
  - by rewrite bool_decide_eq_true_2 by done.
  - by rewrite bool_decide_eq_false_2 by done.
Qed.

End sequencing_loop.

(** *** The iteration on the example host *)

(** C10 on the example host: an envelope whose payload does not unmarshal
    and an envelope of an unsupported type each panic the loop. *)
Lemma main_panics_on_broken_admission_witness :
  (exists format,
     main_iter (RecvSendChan testhost.garbage) None (testhost.host0 2) = Panic format)
  /\ (exists format,
        main_iter (RecvSendChan testhost.odd_type) None (testhost.host0 2) = Panic format).
Proof.
  split.
  - apply (proj1 (main_panics_on_broken_admission
                    testhost.garbage None (testhost.host0 2))).
    left. simpl. done.
  - apply (proj1 (main_panics_on_broken_admission
                    testhost.odd_type None (testhost.host0 2))).
    right. left. simpl. done.
Defined.

(** C2 on the example host: with [tx1] pending, a config update goes to
    block 1 on its own after [tx1] went to block 0. *)
Lemma main_config_msg_gets_own_block_witness :
  main_iter (RecvSendChan testhost.config_update) (Some 2000000000%Z)
    (testhost.host_pending 3 [testhost.tx1])
  = Ok (Continue None)
       (testhost.append_block
          (testhost.append_block (testhost.host0 3)
             {| Number := 0; Data := [testhost.tx1] |})
          {| Number := 1; Data := [testhost.config_update] |})
       [EvCut (Some [testhost.tx1]);
        EvWriteBlock {| Number := 0; Data := [testhost.tx1] |};
        EvWriteConfigBlock {| Number := 1; Data := [testhost.config_update] |}].
Proof.
  refine (proj1 (main_config_msg_gets_own_block
                   testhost.config_update (Some 2000000000%Z)
                   (testhost.host_pending 3 [testhost.tx1])
                   (Some (utils.MakeChannelHeader HeaderType_CONFIG_UPDATE 0 "system" 0))
                   7%N (Some [testhost.tx1]) (testhost.host0 3) _ _ _ _));
    reflexivity.
Defined.

(** C5 on the example host, cutting at two messages: the first transaction
    arms the timer, the second completes a batch, which is written, and the
    timer is cleared. *)
Lemma main_normal_msg_timer_and_batches_witness :
  main_iter (RecvSendChan testhost.tx1) None (testhost.host0 2)
  = Ok (Continue (Some 2000000000%Z)) (testhost.host_pending 2 [testhost.tx1])
       [EvOrdered testhost.tx1 None true]
  /\ main_iter (RecvSendChan testhost.tx2) (Some 2000000000%Z)
       (testhost.host_pending 2 [testhost.tx1])
     = Ok (Continue None)
          (testhost.append_block (testhost.host0 2)
             {| Number := 0; Data := [testhost.tx1; testhost.tx2] |})
          [EvOrdered testhost.tx2 (Some [Some [testhost.tx1; testhost.tx2]]) true;
           EvWriteBlock {| Number := 0; Data := [testhost.tx1; testhost.tx2] |}].
Proof.
  split.
  - destruct (main_normal_msg_timer_and_batches
                testhost.tx1 None (testhost.host0 2)
                (Some (utils.MakeChannelHeader HeaderType_ENDORSER_TRANSACTION 0 "system" 0))
                7%N None true (testhost.host_pending 2 [testhost.tx1]))
      as (Harm & _ & _); [reflexivity | reflexivity | reflexivity | reflexivity |].
    apply Harm; reflexivity.
  - destruct (main_normal_msg_timer_and_batches
                testhost.tx2 (Some 2000000000%Z) (testhost.host_pending 2 [testhost.tx1])
                (Some (utils.MakeChannelHeader HeaderType_ENDORSER_TRANSACTION 0 "system" 0))
                7%N (Some [Some [testhost.tx1; testhost.tx2]]) true (testhost.host0 2))
      as (_ & Hcut & _); [reflexivity | reflexivity | reflexivity | reflexivity |].
    apply Hcut. simpl. lia.
Defined.

(** C5 as the spec words it fails: a transaction that passes re-validation
    is fed to the cutter, the cutter returns no batch and no timer is
    active, yet the cutter did not report [ok] and no timer is armed. *)
Lemma main_normal_msg_not_ok_arms_no_timer :
  let s := testhost.host0 2 in
  let msg := testhost.big_tx in
  ProcessNormalMsg s msg = (7%N, None)
  /\ BlockCutter_Ordered s msg = (None, false, s)
  /\ main_iter (RecvSendChan msg) None s = Ok (Continue None) s [EvOrdered msg None false]
  /\ ~ (exists d s' tr, main_iter (RecvSendChan msg) None s = Ok (Continue (Some d)) s' tr).
Proof.
  simpl. repeat split.
  intros (d & s' & tr & Harm). vm_compute in Harm. discriminate Harm.
Qed.

(** C6 on the example host: the timer expires with [tx1] pending, and with
    nothing pending. *)
Lemma main_timer_expiry_witness :
  main_iter RecvTimer (Some 2000000000%Z) (testhost.host_pending 2 [testhost.tx1])
  = Ok (Continue None)
       (testhost.append_block (testhost.host0 2) {| Number := 0; Data := [testhost.tx1] |})
       [EvCut (Some [testhost.tx1]); EvDebug "Batch timer expired, creating block";
        EvWriteBlock {| Number := 0; Data := [testhost.tx1] |}]
  /\ main_iter RecvTimer (Some 2000000000%Z) (testhost.host0 2)
     = Ok (Continue None) (testhost.host0 2)
          [EvCut None;
           EvWarning "Batch timer expired with no pending requests, this might indicate a bug"].
Proof.
  split.
  - refine (proj2 (main_timer_expiry (Some 2000000000%Z)
                     (testhost.host_pending 2 [testhost.tx1])
                     (Some [testhost.tx1]) (testhost.host0 2) _) _);
      [reflexivity | simpl; lia].
  - refine (proj1 (main_timer_expiry (Some 2000000000%Z) (testhost.host0 2)
                     None (testhost.host0 2) _) _); reflexivity.
Defined.

(** ** The ordering guarantee *)

Section ordering_guarantee.

Context {S : Type} `{OrderPreservingSupport S}.

Lemma blocks_written_app tr1 tr2 :
  blocks_written (tr1 ++ tr2) = blocks_written tr1 ++ blocks_written tr2.
Proof. apply bind_app. Qed.

Lemma ordinary_blocks_app tr1 tr2 :
  ordinary_blocks (tr1 ++ tr2) = ordinary_blocks tr1 ++ ordinary_blocks tr2.
Proof. apply bind_app. Qed.

Lemma config_blocks_app tr1 tr2 :
  config_blocks (tr1 ++ tr2) = config_blocks tr1 ++ config_blocks tr2.
Proof. apply bind_app. Qed.

Lemma cutter_batches_app tr1 tr2 :
  cutter_batches (tr1 ++ tr2) = cutter_batches tr1 ++ cutter_batches tr2.
Proof. apply bind_app. Qed.

Lemma observations_of_writes (blocks : list Block) :
  blocks_written (EvWriteBlock <$> blocks) = blocks
  /\ ordinary_blocks (EvWriteBlock <$> blocks) = blocks
  /\ config_blocks (EvWriteBlock <$> blocks) = []
  /\ cutter_batches (EvWriteBlock <$> blocks) = [].
Proof.
  unfold blocks_written, ordinary_blocks, config_blocks, cutter_batches.
  induction blocks as [| b blocks (IH1 & IH2 & IH3 & IH4)]; [done |].
  rewrite fmap_cons, !bind_cons, IH1, IH2, IH3, IH4. done.
Qed.

(** The blocks written for a list of batches carry those batches, and
    writing them leaves the cutter's pending batch alone. *)
Lemma write_batches_Data (batches : list (slice Envelope)) (s : S) :
  Data <$> (write_batches s batches).2 = elems <$> batches
  /\ cutter_pending (write_batches s batches).1 = cutter_pending s.
Proof.
  revert s. induction batches as [| batch batches IH]; intros s; [done |].
  simpl. specialize (IH (WriteBlock s (CreateNextBlock s batch) None)).
  destruct (write_batches _ batches) as [s' blocks]. simpl in *.
  destruct IH as [IH1 IH2]. split.
  - rewrite CreateNextBlock_Data. f_equal. exact IH1.
  - rewrite IH2. apply WriteBlock_keeps_pending.
Qed.

Lemma len_0_elems {A} (sl : slice A) : len sl = 0 -> elems sl = [].
Proof. destruct sl as [[|]|]; simpl; done. Qed.

(** One iteration: the blocks written, followed by what the cutter holds
    afterwards, are what it held before followed by the message if it is
    accepted; ordinary blocks carry batches the cutter handed out, in that
    order; a config block carries one message. *)
Lemma main_iter_keeps_order c timer s ctl s' tr :
  main_iter c timer s = Ok ctl s' tr ->
  concat (Data <$> blocks_written tr) ++ cutter_pending s'
  = cutter_pending s ++ accepted_of c s
  /\ sublist (Data <$> ordinary_blocks tr) (cutter_batches tr)
  /\ Forall (fun block => exists msg, Data block = [msg]) (config_blocks tr).
Proof.
  destruct c as [msg | |].
  - (* a message *)
    destruct (utils.ChannelHeader msg) as [chdr [herr|]] eqn:Hh.
    { intros Hok. destruct (main_header_failure msg timer s chdr herr Hh) as [f Hf].
      by rewrite Hf in Hok. }
    destruct (ClassifyMsg s chdr) as [class [cerr|]] eqn:Hc.
    { intros Hok.
      destruct (main_classification_failure msg timer s chdr class cerr Hh Hc) as [f Hf].
      by rewrite Hf in Hok. }
    destruct (ProcessNormalMsg s msg) as [configSeq [err|]] eqn:Hp;
      (destruct (decide (class = ConfigUpdateMsg)) as [-> | Hcu];
       [| destruct (decide (class = NormalMsg)) as [-> | Hn]]).
    + rewrite (main_config_msg_rejected msg timer s chdr configSeq err Hh Hc Hp).
      intros [= <- <- <-]. unfold accepted_of, accepted. rewrite Hh, Hc, Hp. simpl.
      rewrite app_nil_r. split; [done | split; constructor].
    + rewrite (main_normal_msg_rejected msg timer s chdr configSeq err Hh Hc Hp).
      intros [= <- <- <-]. unfold accepted_of, accepted. rewrite Hh, Hc, Hp. simpl.
      rewrite app_nil_r. split; [done | split; constructor].
    + intros Hok.
      destruct (main_unsupported_class msg timer s chdr class Hh Hc Hcu Hn) as [f Hf].
      by rewrite Hf in Hok.
    + destruct (BlockCutter_Cut s) as [batch s1] eqn:Hcut.
      rewrite (main_config_msg msg timer s chdr configSeq batch s1 Hh Hc Hp Hcut).
      intros [= <- <- <-].
      destruct (Cut_takes_pending s batch s1 Hcut) as [Hbatch Hs1].
      unfold accepted_of, accepted. rewrite Hh, Hc, Hp. simpl.
      rewrite WriteConfigBlock_keeps_pending.
      destruct batch as [l|]; simpl in *.
      * rewrite WriteBlock_keeps_pending, Hs1, !CreateNextBlock_Data. simpl.
        rewrite <- Hbatch, !app_nil_r. split; [done | split].
        -- reflexivity.
        -- constructor; [| constructor]. eexists. by rewrite CreateNextBlock_Data.
      * rewrite Hs1, !CreateNextBlock_Data. simpl. rewrite <- Hbatch.
        split; [done | split].
        -- apply sublist_nil_l.
        -- constructor; [| constructor]. eexists. by rewrite CreateNextBlock_Data.
    + destruct (BlockCutter_Ordered s msg) as [[batches ok] s1] eqn:Ho.
      rewrite (main_normal_msg msg timer s chdr configSeq batches ok s1 Hh Hc Hp Ho).
      pose proof (Ordered_keeps_order s msg batches ok s1 Ho) as Hkeep.
      unfold accepted_of, accepted. rewrite Hh, Hc, Hp, Ho. simpl.
      destruct (ok && _ && _) eqn:Harm.
      * intros [= <- <- <-]. simpl.
        apply andb_prop in Harm as [Harm _]. apply andb_prop in Harm as [-> Hlen].
        apply bool_decide_eq_true_1 in Hlen. rewrite (len_0_elems _ Hlen) in *.
        simpl in *. split; [done | split; constructor].
      * intros [= <- <- <-].
        destruct (write_batches_Data (elems batches) s1) as [HData Hpend].
        destruct (observations_of_writes (write_batches s1 (elems batches)).2)
          as (Hw & Ho' & Hcb & Hbt).
        change (EvOrdered msg batches ok :: ?tr) with ([EvOrdered msg batches ok] ++ tr).
        rewrite blocks_written_app, ordinary_blocks_app, config_blocks_app,
          cutter_batches_app, Hw, Ho', Hcb, Hbt.
        change (blocks_written [EvOrdered msg batches ok]) with (@nil Block).
        change (ordinary_blocks [EvOrdered msg batches ok]) with (@nil Block).
        change (config_blocks [EvOrdered msg batches ok]) with (@nil Block).
        rewrite !app_nil_l, HData, Hpend.
        split; [done | split; [| constructor]].
        unfold cutter_batches. rewrite bind_singleton, app_nil_r. reflexivity.
    + intros Hok.
      destruct (main_unsupported_class msg timer s chdr class Hh Hc Hcu Hn) as [f Hf].
      by rewrite Hf in Hok.
  - (* the timer *)
    destruct (BlockCutter_Cut s) as [batch s1] eqn:Hcut.
    rewrite (main_timer timer s batch s1 Hcut).
    destruct (Cut_takes_pending s batch s1 Hcut) as [Hbatch Hs1].
    case_bool_decide as Hlen.
    + intros [= <- <- <-]. simpl.
      rewrite Hs1, <- Hbatch, (len_0_elems _ Hlen).
      split; [done | split; [apply sublist_nil_l | constructor]].
    + intros [= <- <- <-]. simpl.
      rewrite WriteBlock_keeps_pending, Hs1, CreateNextBlock_Data, <- Hbatch, !app_nil_r.
      split; [done | split; [reflexivity | constructor]].
  - (* the exit signal *)
    intros [= <- <- <-]. simpl. rewrite app_nil_r.
    split; [done | split; constructor].
Qed.

(** Envelopes at different places of a duplicate-free concatenation are
    different. *)
Lemma NoDup_concat_disjoint {A} (ls : list (list A)) i j li lj x :
  NoDup (concat ls) ->
  ls !! i = Some li -> ls !! j = Some lj ->
  x ∈ li -> x ∈ lj -> i = j.
Proof.
  revert i j. induction ls as [| l ls IH]; intros i j Hnd Hi Hj Hxi Hxj; [done |].
  simpl in Hnd. apply NoDup_app in Hnd as (Hl & Hdisj & Hls).
  assert (forall k lk, ls !! k = Some lk -> x ∈ lk -> x ∈ concat ls) as Hin.
  { intros k lk Hk Hx. apply list_elem_of_In, in_concat. exists lk.
    split; apply list_elem_of_In; [by eapply list_elem_of_lookup_2 | done]. }
  destruct i as [| i], j as [| j]; simpl in *.
  - done.
  - injection Hi as ->. exfalso. eapply Hdisj; [done | by eapply Hin].
  - injection Hj as ->. exfalso. eapply Hdisj; [done | by eapply Hin].
  - f_equal. by eapply IH.
Qed.

(** The whole run. *)
Lemma main_from_keeps_order cases timer s ctl s' tr :
  main_from timer cases s = Ok ctl s' tr ->
  concat (Data <$> blocks_written tr) ++ cutter_pending s'
  = cutter_pending s ++ accepted_messages timer cases s
  /\ sublist (Data <$> ordinary_blocks tr) (cutter_batches tr)
  /\ Forall (fun block => exists msg, Data block = [msg]) (config_blocks tr).
Proof.
  revert timer s ctl s' tr.
  induction cases as [| c cases IH]; intros timer s ctl s' tr.
  - intros [= <- <- <-]. simpl. rewrite app_nil_r. repeat split; constructor.
  - simpl. unfold mbind, M_bind, bind.
    destruct (main_iter c timer s) as [ctl1 s1 tr1 | f] eqn:Hiter; [| done].
    destruct (main_iter_keeps_order c timer s ctl1 s1 tr1 Hiter) as (Hord1 & Hsub1 & Hcfg1).
    destruct ctl1 as [timer1 |].
    + destruct (main_from timer1 cases s1) as [ctl2 s2 tr2 | f] eqn:Hrest; [| done].
      intros [= <- <- <-].
      destruct (IH timer1 s1 ctl2 s2 tr2 Hrest) as (Hord2 & Hsub2 & Hcfg2).
      rewrite blocks_written_app, ordinary_blocks_app, config_blocks_app,
        cutter_batches_app, !fmap_app, concat_app.
      repeat split.
      * rewrite <- app_assoc, Hord2, !app_assoc, Hord1.
        unfold accepted_of. by destruct c.
      * by apply sublist_app.
      * by apply Forall_app.
    + intros [= <- <- <-]. simpl. rewrite !app_nil_r.
      repeat split; [| done | done].
      rewrite Hord1. unfold accepted_of. by destruct c.
Qed.

(** C1, as the code has it.  Along any run of the loop that does not
    panic, over a host whose cutter hands messages out in the order it got
    them: the envelopes of the blocks written, in the order written,
    followed by the batch still pending in the cutter, are the messages
    that were pending at the start followed by the accepted messages (those
    that pass re-validation and that the cutter reports [ok] for) in the
    order the loop received them.  So, these being pairwise different, no
    envelope is in two blocks.  The ordinary blocks carry batches the cutter
    handed out, in the order it handed them out, and every config block
    carries one message. *)
Theorem blocks_follow_admission_order
    (cases : list main_case) (timer : timer_chan) (s : S)
    (ctl : control) (s' : S) (tr : list event) :
  main_from timer cases s = Ok ctl s' tr ->
  concat (Data <$> blocks_written tr) ++ cutter_pending s'
  = cutter_pending s ++ accepted_messages timer cases s
  /\ (NoDup (cutter_pending s ++ accepted_messages timer cases s) ->
      forall i j bi bj msg,
        blocks_written tr !! i = Some bi -> blocks_written tr !! j = Some bj ->
        msg ∈ Data bi -> msg ∈ Data bj -> i = j)
  /\ sublist (Data <$> ordinary_blocks tr) (cutter_batches tr)
  /\ Forall (fun block => exists msg, Data block = [msg]) (config_blocks tr).
Proof.
  intros Hrun.
  destruct (main_from_keeps_order cases timer s ctl s' tr Hrun) as (Hord & Hsub & Hcfg).
  repeat split; [done | | done | done].
  intros Hnd i j bi bj msg Hi Hj Hmi Hmj.
  rewrite <- Hord in Hnd. apply NoDup_app in Hnd as (Hnd & _ & _).
  apply (NoDup_concat_disjoint (Data <$> blocks_written tr) i j (Data bi) (Data bj) msg);
    [done | | | done | done].
  - by rewrite list_lookup_fmap, Hi.
  - by rewrite list_lookup_fmap, Hj.
Qed.

(** A run that comes back to the [select] has gone through all its cases. *)
Lemma main_from_snoc cases c timer s t s' tr :
  main_from timer (cases ++ [c]) s = Ok (Continue t) s' tr ->
  exists t1 s1 tr1 tr2,
    main_from timer cases s = Ok (Continue t1) s1 tr1
    /\ main_iter c t1 s1 = Ok (Continue t) s' tr2.
Proof.
  revert timer s tr. induction cases as [| c0 cases IH]; intros timer s tr; simpl;
    unfold mbind, M_bind, bind.
  - destruct (main_iter c timer s) as [[t1 |] s1 tr1 | f] eqn:Hiter; [| done | done].
    simpl. intros [= <- <- <-]. by exists timer, s, [], tr1.
  - destruct (main_iter c0 timer s) as [[t0 |] s0 tr0 | f] eqn:Hiter; [| done | done].
    destruct (main_from t0 (cases ++ [c]) s0) as [ctl2 s2 tr2 | f] eqn:Hrest; [| done].
    intros [= -> <- <-].
    destruct (IH t0 s0 tr2 Hrest) as (t1 & s1 & tr1 & tr3 & Hcases & Hlast).
    rewrite Hcases. by exists t1, s1, (tr0 ++ tr1), tr3.
Qed.

(** When nothing was pending at the start and the run ends with the timer
    case, nothing is pending at the end, and the blocks written carry
    exactly the accepted messages, in the order received. *)
Lemma blocks_exact_after_timer cases timer s t s' tr :
  cutter_pending s = [] ->
  main_from timer (cases ++ [RecvTimer]) s = Ok (Continue t) s' tr ->
  concat (Data <$> blocks_written tr) = accepted_messages timer (cases ++ [RecvTimer]) s.
Proof.
  intros Hempty Hrun.
  destruct (main_from_keeps_order _ _ _ _ _ _ Hrun) as (Hord & _ & _).
  rewrite Hempty in Hord. simpl in Hord. rewrite <- Hord.
  enough (cutter_pending s' = []) as -> by by rewrite app_nil_r.
  destruct (main_from_snoc _ _ _ _ _ _ _ Hrun) as (t1 & s1 & tr1 & tr2 & _ & Hlast).
  destruct (BlockCutter_Cut s1) as [batch s2] eqn:Hcut.
  rewrite (main_timer t1 s1 batch s2 Hcut) in Hlast.
  destruct (Cut_takes_pending s1 batch s2 Hcut) as [_ Hs2].
  case_bool_decide.
  - by injection Hlast as _ <- _.
  - injection Hlast as _ <- _. by rewrite WriteBlock_keeps_pending.
Qed.

End ordering_guarantee.

(** *** The ordering guarantee on the example host *)

Lemma testhost_Ordered_keeps_order s msg batches ok s' :
  testhost.Ordered s msg = (batches, ok, s') ->
  concat (elems <$> elems batches) ++ elems (testhost.pendingBatch s')
  = elems (testhost.pendingBatch s) ++ (if ok then [msg] else []).
Proof.
  unfold testhost.Ordered. repeat case_bool_decide; intros [= <- <- <-]; simpl.
  - by rewrite app_nil_r.
  - by rewrite !app_nil_r.
  - done.
Qed.

Lemma testhost_Cut_takes_pending s batch s' :
  testhost.Cut s = (batch, s') ->
  elems batch = elems (testhost.pendingBatch s) /\ elems (testhost.pendingBatch s') = [].
Proof. by intros [= <- <-]. Qed.

#[local] Instance testhost_order_preserving : OrderPreservingSupport testhost.host :=
  {| cutter_pending := fun s => elems (testhost.pendingBatch s);
     Ordered_keeps_order := testhost_Ordered_keeps_order;
     Cut_takes_pending := testhost_Cut_takes_pending;
     WriteBlock_keeps_pending := fun _ _ _ => eq_refl;
     WriteConfigBlock_keeps_pending := fun _ _ _ => eq_refl;
     CreateNextBlock_Data := fun _ _ => eq_refl |}.

(** C1 on the example host, cutting at two messages: three transactions
    and a timer expiry give two blocks that carry the three transactions in
    the order received. *)
Lemma blocks_follow_admission_order_witness :
  exists s' tr,
    main [RecvSendChan testhost.tx1; RecvSendChan testhost.tx2;
          RecvSendChan testhost.tx3; RecvTimer] (testhost.host0 2)
    = Ok (Continue None) s' tr
    /\ Data <$> blocks_written tr = [[testhost.tx1; testhost.tx2]; [testhost.tx3]]
    /\ concat (Data <$> blocks_written tr) ++ cutter_pending s'
       = [testhost.tx1; testhost.tx2; testhost.tx3].
Proof.
  eexists _, _. split; [reflexivity |]. split; [reflexivity |].
  change [testhost.tx1; testhost.tx2; testhost.tx3]
    with (cutter_pending (testhost.host0 2)
          ++ accepted_messages None
               [RecvSendChan testhost.tx1; RecvSendChan testhost.tx2;
                RecvSendChan testhost.tx3; RecvTimer] (testhost.host0 2)).
  apply (blocks_follow_admission_order
           [RecvSendChan testhost.tx1; RecvSendChan testhost.tx2;
            RecvSendChan testhost.tx3; RecvTimer]
           None (testhost.host0 2) (Continue None)).
  reflexivity.
Defined.

(** C1 as the spec words it fails.  A transaction is handed over ([Order]
    returns [nil]), it passes re-validation and the cutter takes it, the
    chain is halted and the loop returns, and no block carries the
    transaction: it is still pending in the cutter.  And a transaction that
    passes re-validation but that the cutter does not report [ok] for is in
    no block and not pending either, even after the timer has expired. *)
Lemma accepted_message_in_no_block :
  let cases := [RecvSendChan testhost.tx1; RecvExitChan] in
  let s := testhost.host0 2 in
  (exists s' tr ch,
     main cases s = Ok Return s' tr
     /\ ProcessNormalMsg s testhost.tx1 = (7%N, None)
     /\ accepted_messages None cases s = [testhost.tx1]
     /\ blocks_written tr = []
     /\ concat (Data <$> blocks_written tr) <> accepted_messages None cases s
     /\ testhost.pendingBatch s' = Some [testhost.tx1]
     /\ run [CallStart; StepMain MainBlock; CallOrder testhost.tx1 7;
             StepOrder 0 SendSendChan; CallHalt; StepHalt 0; StepHalt 0;
             StepMain PickExitChan] (newChain s) = Step ch
     /\ orders ch = [OrderReturned None]
     /\ main_g ch = MainReturned
     /\ support ch = s'
     /\ trace ch = EvOrdered testhost.tx1 None true
                     :: EvCloseExitChan :: [EvDebug "Exiting"])
  /\ (exists t s' tr,
        main [RecvSendChan testhost.big_tx; RecvTimer] s = Ok (Continue t) s' tr
        /\ ProcessNormalMsg s testhost.big_tx = (7%N, None)
        /\ blocks_written tr = []
        /\ testhost.pendingBatch s' = None).
Proof.
  split.
  - eexists _, _, _. repeat split; try reflexivity. vm_compute. discriminate.
  - eexists _, _, _. repeat split; reflexivity.
Qed.

(** ** The chain and its callers *)

Section goroutines.

Context {S : Type} `{ConsenterSupport S}.

Implicit Types (ch : @chain S) (l : label) (env : Envelope).

(** What [main] taking a case leaves alone. *)
Lemma main_takes_Step c timer ch ch' :
  main_takes c timer ch = Step ch' ->
  exitChan ch' = exitChan ch /\ orders ch' = orders ch /\ halts ch' = halts ch
  /\ main_blocked ch' = false
  /\ exists ctl s tr,
       main_iter c timer (support ch) = Ok ctl s tr
       /\ support ch' = s /\ trace ch' = trace ch ++ tr.
Proof.
  unfold main_takes.
  destruct (main_iter c timer (support ch)) as [ctl s tr | f]; [| done].
  intros [= <-]. repeat split; [by destruct ctl | by eexists _, _, _].
Qed.

(** The loop itself never closes the exit channel. *)
Lemma main_iter_closes c timer (s : S) ctl s' tr :
  main_iter c timer s = Ok ctl s' tr -> closes tr = 0.
Proof.
  destruct c as [msg | |].
  - destruct (utils.ChannelHeader msg) as [chdr [herr|]] eqn:Hh.
    { intros Hok. destruct (main_header_failure msg timer s chdr herr Hh) as [f Hf].
      by rewrite Hf in Hok. }
    destruct (ClassifyMsg s chdr) as [class [cerr|]] eqn:Hc.
    { intros Hok.
      destruct (main_classification_failure msg timer s chdr class cerr Hh Hc) as [f Hf].
      by rewrite Hf in Hok. }
    destruct (ProcessNormalMsg s msg) as [configSeq [err|]] eqn:Hp;
      (destruct (decide (class = ConfigUpdateMsg)) as [-> | Hcu];
       [| destruct (decide (class = NormalMsg)) as [-> | Hn]]);
      try (intros Hok;
           destruct (main_unsupported_class msg timer s chdr class Hh Hc Hcu Hn) as [f Hf];
           by rewrite Hf in Hok).
    + rewrite (main_config_msg_rejected msg timer s chdr configSeq err Hh Hc Hp).
      by intros [= <- <- <-].
    + rewrite (main_normal_msg_rejected msg timer s chdr configSeq err Hh Hc Hp).
      by intros [= <- <- <-].
    + destruct (BlockCutter_Cut s) as [batch s1] eqn:Hcut.
      rewrite (main_config_msg msg timer s chdr configSeq batch s1 Hh Hc Hp Hcut).
      intros [= <- <- <-]. by destruct batch.
    + destruct (BlockCutter_Ordered s msg) as [[batches ok] s1] eqn:Ho.
      rewrite (main_normal_msg msg timer s chdr configSeq batches ok s1 Hh Hc Hp Ho).
      destruct (ok && _ && _); intros [= <- <- <-]; [done |].
      unfold closes. rewrite bind_cons. simpl.
      induction (write_batches s1 (elems batches)).2 as [| b bs IH]; [done |].
      by rewrite fmap_cons, bind_cons.
  - destruct (BlockCutter_Cut s) as [batch s1] eqn:Hcut.
    rewrite (main_timer timer s batch s1 Hcut).
    case_bool_decide; by intros [= <- <- <-].
  - by intros [= <- <- <-].
Qed.

Lemma closes_app tr1 tr2 : closes (tr1 ++ tr2) = closes tr1 + closes tr2.
Proof. unfold closes. by rewrite bind_app, length_app. Qed.

(** Taking the exit case never panics. *)
Lemma main_takes_exit timer ch :
  main_takes RecvExitChan timer ch
  = Step (set_main_g (log ch [EvDebug "Exiting"]) MainReturned).
Proof. done. Qed.

Lemma closes_snoc_close tr : closes (tr ++ [EvCloseExitChan]) = Datatypes.S (closes tr).
Proof. rewrite closes_app. change (closes [EvCloseExitChan]) with 1. lia. Qed.

Lemma closes_snoc_debug tr format : closes (tr ++ [EvDebug format]) = closes tr.
Proof. rewrite closes_app. change (closes [EvDebug format]) with 0. lia. Qed.

(** [close] on the open exit channel. *)
Lemma close_exitChan_open ch :
  exitChan ch = Open ->
  exists ch',
    close_exitChan ch = Step ch'
    /\ exitChan ch' = Closed
    /\ orders ch' = wake_order <$> orders ch
    /\ halts ch' = halts ch
    /\ main_blocked ch' = false
    /\ closes (trace ch') = Datatypes.S (closes (trace ch)).
Proof.
  intros Hopen. unfold close_exitChan. rewrite Hopen. simpl.
  destruct (main_g ch) as [| timer | timer |] eqn:Hg.
  - eexists. repeat split; simpl; [by unfold main_blocked; simpl; rewrite Hg |].
    apply closes_snoc_close.
  - eexists. repeat split; simpl; [by unfold main_blocked; simpl; rewrite Hg |].
    apply closes_snoc_close.
  - rewrite main_takes_exit. eexists. repeat split; simpl.
    by rewrite closes_snoc_debug, closes_snoc_close.
  - eexists. repeat split; simpl; [by unfold main_blocked; simpl; rewrite Hg |].
    apply closes_snoc_close.
Qed.

Lemma wake_order_not_blocked (os : list order_call) :
  Forall (fun o => is_blocked o = false) (wake_order <$> os).
Proof. apply Forall_fmap, Forall_true. by intros []. Qed.

Lemma newChain_inv (s : S) : chain_inv (newChain s).
Proof. split; [by intros ? | done]. Qed.

Lemma step_inv l ch ch' : chain_inv ch -> step l ch = Step ch' -> chain_inv ch'.
Proof.
  intros [Hwake Hcl] Hstep. destruct l as [| env seq | cu env seq | | i c | c | k |];
    simpl in Hstep.
  - (* Start *)
    unfold Start in Hstep. destruct (main_g ch) eqn:Hg; try done.
    injection Hstep as <-. split; [| done].
    intros Hc. destruct (Hwake Hc) as [_ Ho]. by split.
  - (* a call of Order *)
    injection Hstep as <-. split; [| done].
    intros Hc. destruct (Hwake Hc) as [Hm Ho]. split; [done |].
    simpl. apply Forall_app. split; [done | by repeat constructor].
  - (* a call of Configure *)
    injection Hstep as <-. split; [| done].
    intros Hc. destruct (Hwake Hc) as [Hm Ho]. split; [done |].
    simpl. apply Forall_app. split; [done | by repeat constructor].
  - (* a call of Halt *)
    by injection Hstep as <-.
  - (* Order at its select *)
    unfold order_step in Hstep.
    destruct (orders ch !! i) as [[env | env | err] |] eqn:Hi; try done.
    unfold Order_select in Hstep. destruct c.
    + destruct (main_blocked ch) eqn:Hmb; [| done].
      destruct (main_g ch) as [| | timer |] eqn:Hg; try done.
      apply main_takes_Step in Hstep as (He & Ho & _ & Hnb & ctl & s & tr & Hit & _ & Htr).
      simpl in *. split.
      * intros Hc. rewrite He in Hc. destruct (Hwake Hc) as [Hm _]. congruence.
      * rewrite Htr, closes_app, (main_iter_closes (RecvSendChan env) _ _ _ _ _ Hit), He. lia.
    + destruct (ready (exitChan ch)) eqn:Hr; [| done].
      injection Hstep as <-. split; [| simpl; by rewrite Hr].
      intros Hc. destruct (Hwake Hc) as [Hm Ho]. split; [done |].
      simpl. by apply Forall_insert.
    + destruct (main_blocked ch || ready (exitChan ch)) eqn:Hr; [done |].
      apply orb_false_elim in Hr as [_ Hr].
      injection Hstep as <-. split; [| simpl; by rewrite Hcl].
      intros Hc. simpl in Hc. by rewrite Hc in Hr.
  - (* main at its select *)
    unfold main_step in Hstep. destruct (main_g ch) as [| timer | |] eqn:Hg; try done.
    destruct c as [i | | |].
    + destruct (orders ch !! i) as [[| env |] |] eqn:Hi; try done.
      apply main_takes_Step in Hstep as (He & Ho & _ & Hnb & ctl & s & tr & Hit & _ & Htr).
      simpl in *. split.
      * intros Hc. rewrite He in Hc. destruct (Hwake Hc) as [_ Hos].
        split; [done |]. rewrite Ho. by apply Forall_insert.
      * rewrite Htr, closes_app, (main_iter_closes (RecvSendChan env) _ _ _ _ _ Hit), He. lia.
    + destruct timer as [d |]; [| done].
      apply main_takes_Step in Hstep as (He & Ho & _ & Hnb & ctl & s & tr & Hit & _ & Htr).
      split.
      * intros Hc. rewrite He in Hc. destruct (Hwake Hc) as [_ Hos].
        split; [done |]. by rewrite Ho.
      * rewrite Htr, closes_app, (main_iter_closes RecvTimer _ _ _ _ _ Hit), He. lia.
    + destruct (ready (exitChan ch)) eqn:Hr; [| done].
      apply main_takes_Step in Hstep as (He & Ho & _ & Hnb & ctl & s & tr & Hit & _ & Htr).
      split.
      * intros Hc. rewrite He in Hc. destruct (Hwake Hc) as [_ Hos].
        split; [done |]. by rewrite Ho.
      * rewrite Htr, closes_app, (main_iter_closes RecvExitChan _ _ _ _ _ Hit), He, Hr. lia.
    + destruct (existsb is_blocked (orders ch) || ready (exitChan ch)) eqn:Hr; [done |].
      apply orb_false_elim in Hr as [_ Hr].
      injection Hstep as <-. split; [| simpl; by rewrite Hcl].
      intros Hc. simpl in Hc. by rewrite Hc in Hr.
  - (* Halt *)
    unfold halt_step in Hstep. destruct (halts ch !! k) as [[| |] |] eqn:Hk; try done.
    + by injection Hstep as <-.
    + destruct (exitChan ch) eqn:He.
      * destruct (close_exitChan_open (set_halts ch (<[k:=HaltReturned]> (halts ch))))
          as (ch1 & Hclose & Hc1 & Ho1 & _ & Hm1 & Hn1); [done |].
        rewrite Hclose in Hstep. injection Hstep as <-. split.
        -- intros _. split; [done |]. rewrite Ho1. apply wake_order_not_blocked.
        -- rewrite Hn1, Hc1. simpl in *. rewrite Hcl. done.
      * unfold close_exitChan in Hstep. simpl in Hstep. by rewrite He in Hstep.
  - (* the timer *)
    unfold timer_expires in Hstep.
    destruct (main_g ch) as [| | [d |] |] eqn:Hg; try done.
    apply main_takes_Step in Hstep as (He & Ho & _ & Hnb & ctl & s & tr & Hit & _ & Htr).
    split.
    + intros Hc. rewrite He in Hc. destruct (Hwake Hc) as [Hm _].
      unfold main_blocked in Hm. by rewrite Hg in Hm.
    + rewrite Htr, closes_app, (main_iter_closes RecvTimer _ _ _ _ _ Hit), He. lia.
Qed.

Lemma run_inv ls ch ch' : chain_inv ch -> run ls ch = Step ch' -> chain_inv ch'.
Proof.
  revert ch. induction ls as [| l ls IH]; intros ch Hinv; simpl.
  - by intros [= <-].
  - destruct (step l ch) as [ch1 | |] eqn:Hstep; try done.
    apply IH. by eapply step_inv.
Qed.

Lemma reachable_inv ch : reachable ch -> chain_inv ch.
Proof. intros (s & ls & Hrun). eapply run_inv; [apply newChain_inv | done]. Qed.

Lemma reachable_step l ch ch' : reachable ch -> step l ch = Step ch' -> reachable ch'.
Proof.
  intros (s & ls & Hrun) Hstep. exists s, (ls ++ [l]).
  revert Hrun. generalize (newChain s) as ch0.
  induction ls as [| l0 ls IH]; intros ch0; simpl.
  - intros [= ->]. by rewrite Hstep.
  - destruct (step l0 ch0); try done. apply IH.
Qed.

(** *** [Order] *)

(** The [select] of [Order] does not look into the envelope: which cases
    can be taken and what the call returns are the same for any two
    envelopes, and the envelope handed to [main] is the one given. *)
Lemma Order_select_ignores_envelope env env' c receiver_blocked exit :
  (order_result ∘ fst) <$> Order_select env c receiver_blocked exit
  = (order_result ∘ fst) <$> Order_select env' c receiver_blocked exit
  /\ (forall o handed,
        Order_select env c receiver_blocked exit = Some (o, Some handed) -> handed = env).
Proof.
  split.
  - unfold Order_select. destruct c, receiver_blocked, (ready exit); done.
  - unfold Order_select. intros o handed.
    destruct c, receiver_blocked, (ready exit); simpl; congruence.
Qed.

(** What one step of the chain makes of a call of [Order] that has not
    returned. *)
Lemma Order_fate ch l ch' i env :
  chain_inv ch ->
  step l ch = Step ch' ->
  waiting (orders ch !! i) env ->
  (orders ch' !! i = orders ch !! i /\ forall c, l <> StepOrder i c)
  \/ (l = StepOrder i OrderBlock
      /\ orders ch' !! i = Some (OrderBlocked env)
      /\ exitChan ch = Open /\ exitChan ch' = Open)
  \/ ((l = StepOrder i SendSendChan \/ l = StepMain (PickSendChan i))
      /\ orders ch' !! i = Some (OrderReturned None)
      /\ exitChan ch = Open /\ exitChan ch' = Open
      /\ handed_to_main ch ch' env)
  \/ ((l = StepOrder i OrderRecvExitChan \/ exists k, l = StepHalt k)
      /\ orders ch' !! i = Some (OrderReturned (Some (Errorf "Exiting")))
      /\ exitChan ch' = Closed).
Proof.
  intros [Hwake Hcl] Hstep Hwait.
  assert (i < length (orders ch)) as Hlen.
  { destruct Hwait as [Hw | Hw]; by apply lookup_lt_Some in Hw. }
  assert (forall j, orders ch !! j = Some (OrderBlocked env) -> exitChan ch = Open) as Hopen.
  { intros j Hj. destruct (exitChan ch) eqn:He; [done |].
    destruct (Hwake He) as [_ Hall].
    by apply (Forall_lookup_1 _ _ _ _ Hall) in Hj. }
  destruct l as [| env0 seq | cu env0 seq | | j c | c | k |]; simpl in Hstep.
  - left. unfold Start in Hstep. destruct (main_g ch); try done.
    injection Hstep as <-. by split.
  - left. injection Hstep as <-. simpl. split; [by apply lookup_app_l | done].
  - left. injection Hstep as <-. simpl. split; [by apply lookup_app_l | done].
  - left. injection Hstep as <-. by split.
  - (* some call of Order at its select *)
    unfold order_step in Hstep.
    destruct (orders ch !! j) as [[envj | envj | errj] |] eqn:Hj; try done.
    destruct (decide (j = i)) as [-> | Hne].
    + assert (envj = env) as ->.
      { destruct Hwait as [Hw | Hw]; rewrite Hj in Hw; congruence. }
      unfold Order_select in Hstep. destruct c.
      * right; right; left.
        destruct (main_blocked ch) eqn:Hmb; [| done].
        destruct (main_g ch) as [| | timer |] eqn:Hg; try done.
        assert (exitChan ch = Open) as He.
        { destruct (exitChan ch) eqn:He; [done |].
          destruct (Hwake He) as [Hm _]. congruence. }
        apply main_takes_Step in Hstep
          as (He' & Ho & _ & _ & ctl & s & tr & Hit & Hs & Htr).
        simpl in He', Ho, Hit, Htr.
        repeat split; [by left | | done | congruence |].
        -- rewrite Ho. by apply list_lookup_insert_eq.
        -- by exists timer, ctl, s, tr.
      * right; right; right.
        destruct (ready (exitChan ch)) eqn:Hr; [| done].
        injection Hstep as <-. simpl.
        repeat split; [by left | by apply list_lookup_insert_eq |].
        by destruct (exitChan ch).
      * right; left.
        destruct (main_blocked ch || ready (exitChan ch)) eqn:Hr; [done |].
        apply orb_false_elim in Hr as [_ Hr].
        injection Hstep as <-. simpl.
        assert (exitChan ch = Open) by by destruct (exitChan ch).
        repeat split; [by apply list_lookup_insert_eq | done | done].
    + left. split; [| congruence].
      destruct (Order_select envj c (main_blocked ch) (exitChan ch))
        as [[o [msg |]] |]; [| | done].
      * destruct (main_g ch) as [| | timer |]; try done.
        apply main_takes_Step in Hstep as (_ & Ho & _). rewrite Ho. simpl.
        by apply list_lookup_insert_ne.
      * injection Hstep as <-. simpl. by apply list_lookup_insert_ne.
  - (* main at its select *)
    unfold main_step in Hstep. destruct (main_g ch) as [| timer | |] eqn:Hg; try done.
    destruct c as [j | | |].
    + destruct (orders ch !! j) as [[| envj |] |] eqn:Hj; try done.
      apply main_takes_Step in Hstep
        as (He' & Ho & _ & _ & ctl & s & tr & Hit & Hs & Htr).
      simpl in He', Ho, Hit, Htr.
      destruct (decide (j = i)) as [-> | Hne].
      * right; right; left.
        assert (envj = env) as ->.
        { destruct Hwait as [Hw | Hw]; rewrite Hj in Hw; congruence. }
        assert (exitChan ch = Open) as He by by eapply Hopen.
        repeat split; [by right | | done | congruence |].
        -- rewrite Ho. by apply list_lookup_insert_eq.
        -- by exists timer, ctl, s, tr.
      * left. split; [| done]. rewrite Ho. by apply list_lookup_insert_ne.
    + left. destruct timer; [| done].
      apply main_takes_Step in Hstep as (_ & Ho & _). by rewrite Ho.
    + left. destruct (ready (exitChan ch)); [| done].
      apply main_takes_Step in Hstep as (_ & Ho & _). by rewrite Ho.
    + left. destruct (existsb is_blocked (orders ch) || ready (exitChan ch)); [done |].
      by injection Hstep as <-.
  - (* some call of Halt *)
    unfold halt_step in Hstep. destruct (halts ch !! k) as [[| |] |] eqn:Hk; try done.
    + left. by injection Hstep as <-.
    + destruct (exitChan ch) eqn:He.
      * destruct (close_exitChan_open (set_halts ch (<[k:=HaltReturned]> (halts ch))))
          as (ch1 & Hclose & Hc1 & Ho1 & _); [done |].
        rewrite Hclose in Hstep. injection Hstep as <-. simpl in Ho1.
        destruct Hwait as [Hw | Hw].
        -- left. split; [| done]. by rewrite Ho1, list_lookup_fmap, Hw.
        -- right; right; right.
           repeat split; [by right; exists k | | done].
           by rewrite Ho1, list_lookup_fmap, Hw.
      * unfold close_exitChan in Hstep. simpl in Hstep. by rewrite He in Hstep.
  - (* the timer *)
    left. unfold timer_expires in Hstep.
    destruct (main_g ch) as [| | [d |] |]; try done.
    apply main_takes_Step in Hstep as (_ & Ho & _). by rewrite Ho.
Qed.

(** Once the exit channel is closed, a call of [Order] that has not
    returned can evaluate its [select], and returns the error. *)
Lemma Order_after_exit ch i env :
  chain_inv ch ->
  exitChan ch = Closed ->
  waiting (orders ch !! i) env ->
  exists ch',
    step (StepOrder i OrderRecvExitChan) ch = Step ch'
    /\ orders ch' !! i = Some (OrderReturned (Some (Errorf "Exiting"))).
Proof.
  intros [Hwake _] He Hwait. destruct (Hwake He) as [_ Hall].
  destruct Hwait as [Hw | Hw].
  - simpl. unfold order_step. rewrite Hw. simpl. rewrite He. simpl.
    eexists. split; [done |]. simpl.
    apply list_lookup_insert_eq. by apply lookup_lt_Some in Hw.
  - by apply (Forall_lookup_1 _ _ _ _ Hall) in Hw.
Qed.

(** C8.  A call of [Order] that has not returned, in a chain built by
    [newChain], over one step of any goroutine.  It returns [nil] only by
    handing its envelope to [main], which runs its iteration on it, and
    only while the exit channel is open; it returns the error only when the
    exit channel is closed; otherwise it goes on waiting.  It is never left
    blocked once the exit channel is closed: it can then evaluate its
    [select], and when it does it returns the error.  Whether and what it
    returns does not depend on the envelope. *)
Theorem Order_fails_exactly_on_exit
    (ch : chain) (l : label) (ch' : chain) (i : nat) (env : Envelope) :
  reachable ch ->
  step l ch = Step ch' ->
  waiting (orders ch !! i) env ->
  (forall err, orders ch' !! i = Some (OrderReturned err) ->
     (err = None /\ exitChan ch' = Open /\ handed_to_main ch ch' env)
     \/ (err = Some (Errorf "Exiting") /\ exitChan ch' = Closed))
  /\ (waiting (orders ch' !! i) env
      \/ exists err, orders ch' !! i = Some (OrderReturned err))
  /\ (orders ch' !! i = Some (OrderBlocked env) -> exitChan ch' = Open)
  /\ (exitChan ch = Closed -> forall c, l = StepOrder i c ->
      orders ch' !! i = Some (OrderReturned (Some (Errorf "Exiting"))))
  /\ (exitChan ch = Closed ->
      exists ch2,
        step (StepOrder i OrderRecvExitChan) ch = Step ch2
        /\ orders ch2 !! i = Some (OrderReturned (Some (Errorf "Exiting"))))
  /\ (forall env' c receiver_blocked exit,
        (order_result ∘ fst) <$> Order_select env c receiver_blocked exit
        = (order_result ∘ fst) <$> Order_select env' c receiver_blocked exit).
Proof.
  intros Hreach Hstep Hwait.
  pose proof (reachable_inv ch Hreach) as Hinv.
  assert (exitChan ch = Closed ->
          exists ch2,
            step (StepOrder i OrderRecvExitChan) ch = Step ch2
            /\ orders ch2 !! i = Some (OrderReturned (Some (Errorf "Exiting"))))
    as Hafter.
  { intros He. by eapply Order_after_exit. }
  destruct (Order_fate ch l ch' i env Hinv Hstep Hwait)
    as [[Hsame Hl] | [(-> & Hb & He & He') | [(Hl & Hr & He & He' & Hh) | (Hl & Hr & He')]]].
  - repeat split.
    + intros err Herr. rewrite Hsame in Herr.
      destruct Hwait as [Hw | Hw]; rewrite Hw in Herr; done.
    + left. by rewrite Hsame.
    + intros Hb. destruct (exitChan ch') eqn:He; [done |].
      destruct (reachable_inv ch' (reachable_step l ch ch' Hreach Hstep)) as [Hwake _].
      destruct (Hwake He) as [_ Hall].
      by apply (Forall_lookup_1 _ _ _ _ Hall) in Hb.
    + intros _ c ->. by destruct (Hl c).
    + exact Hafter.
    + intros. apply Order_select_ignores_envelope.
  - repeat split.
    + intros err Herr. rewrite Hb in Herr. done.
    + left. by right.
    + done.
    + intros Hc. by rewrite He in Hc.
    + exact Hafter.
    + intros. apply Order_select_ignores_envelope.
  - repeat split.
    + intros err Herr. rewrite Hr in Herr. injection Herr as <-. by left.
    + right. by eexists.
    + intros Hb. by rewrite Hr in Hb.
    + intros Hc. by rewrite He in Hc.
    + exact Hafter.
    + intros. apply Order_select_ignores_envelope.
  - repeat split.
    + intros err Herr. rewrite Hr in Herr. injection Herr as <-. by right.
    + right. by eexists.
    + intros Hb. by rewrite Hr in Hb.
    + done.
    + exact Hafter.
    + intros. apply Order_select_ignores_envelope.
Qed.

(** *** [Configure] *)

(** C9.  [Configure (configUpdate, config, configSeq)] is the call
    [Order (config, configSeq)]: the chain behaves the same, along every
    schedule, whichever of the two is called, and so it does not depend on
    the config update. *)
Theorem Configure_is_Order
    (configUpdate config : Envelope) (configSeq : N) (ls : list label) (ch : chain) :
  Configure configUpdate config configSeq = Order config configSeq
  /\ run (CallConfigure configUpdate config configSeq :: ls) ch
     = run (CallOrder config configSeq :: ls) ch
  /\ (forall configUpdate',
        run (CallConfigure configUpdate' config configSeq :: ls) ch
        = run (CallConfigure configUpdate config configSeq :: ls) ch).
Proof. done. Qed.

(** *** [Halt] and [Errored] *)

Lemma Halt_closed ch : exitChan ch = Closed -> Halt ch = Step ch.
Proof. intros He. unfold Halt, Halt_select. by rewrite He. Qed.

Lemma Halts_closed n ch : exitChan ch = Closed -> Halts n ch = Step ch.
Proof.
  intros He. induction n as [| n IH]; [done |].
  simpl. by rewrite (Halt_closed ch He).
Qed.

(** [Halt] is what the steps of a call of [Halt] do when they run back to
    back, the list of calls set aside. *)
Lemma Halt_is_its_steps ch :
  let k := length (halts ch) in
  match Halt ch with
  | Step ch1 =>
      exists ch2,
        run (if ready (exitChan ch) then [CallHalt; StepHalt k]
             else [CallHalt; StepHalt k; StepHalt k]) ch = Step ch2
        /\ set_halts ch2 (halts ch) = ch1
  | _ => False
  end.
Proof.
  assert (forall (h h0 : halt_call) hs, <[length hs := h]> (hs ++ [h0]) = hs ++ [h])
    as Hins.
  { intros h h0 hs. rewrite <- (Nat.add_0_r (length hs)). by rewrite insert_app_r. }
  destruct ch as [s e g os hs tr]. unfold Halt, Halt_select. simpl.
  destruct e; simpl; unfold halt_step; simpl;
    rewrite list_lookup_middle by done; simpl.
  - rewrite Hins. simpl.
    rewrite list_lookup_middle by done. rewrite Hins.
    unfold close_exitChan, set_halts, set_orders, set_exitChan, log. simpl.
    destruct g; simpl; by eexists.
  - by eexists.
Qed.

(** C7, as the code has it.  Calls of [Halt] that run one after the other,
    on a chain built by [newChain]: the first one does not panic and leaves
    the exit channel closed, closed exactly once; every further one changes
    nothing, so any number of calls comes to the same as one.  The channel
    [Errored] hands out is ready if and only if the exit channel has been
    closed, which happens at most once. *)
Theorem Halt_in_sequence_is_idempotent (ch : chain) (n : nat) :
  reachable ch ->
  (exists ch1,
     Halt ch = Step ch1
     /\ Halts (Datatypes.S n) ch = Step ch1
     /\ Halt ch1 = Step ch1
     /\ ready (Errored ch1) = true
     /\ closes (trace ch1) = 1)
  /\ (ready (Errored ch) = true <-> closes (trace ch) = 1)
  /\ (ready (Errored ch) = false <-> closes (trace ch) = 0).
Proof.
  intros Hreach. destruct (reachable_inv ch Hreach) as [_ Hcl].
  unfold Errored. split; [| split].
  - destruct (exitChan ch) eqn:He.
    + destruct (close_exitChan_open ch He) as (ch1 & Hclose & Hc1 & _ & _ & _ & Hn1).
      exists ch1.
      assert (Halt ch = Step ch1) as Hhalt.
      { unfold Halt, Halt_select. by rewrite He. }
      repeat split.
      * done.
      * simpl. rewrite Hhalt. by apply Halts_closed.
      * by apply Halt_closed.
      * by rewrite Hc1.
      * rewrite Hn1, Hcl. done.
    + exists ch. repeat split.
      * by apply Halt_closed.
      * by apply Halts_closed.
      * by apply Halt_closed.
      * by rewrite He.
      * by rewrite Hcl.
  - rewrite Hcl. destruct (ready (exitChan ch)); split; done.
  - rewrite Hcl. destruct (ready (exitChan ch)); split; done.
Qed.

End goroutines.

(** *** The chain on the example host *)

(** C7 on a fresh chain over the example host. *)
Lemma Halt_in_sequence_is_idempotent_witness :
  exists ch1,
    Halt (newChain (testhost.host0 2)) = Step ch1
    /\ Halts 3 (newChain (testhost.host0 2)) = Step ch1
    /\ Halt ch1 = Step ch1
    /\ ready (Errored ch1) = true
    /\ closes (trace ch1) = 1.
Proof.
  apply (Halt_in_sequence_is_idempotent (newChain (testhost.host0 2)) 2).
  exists (testhost.host0 2), []. reflexivity.
Defined.

(** C7 as the spec words it fails: two calls of [Halt] that overlap both
    find the exit channel open, both go on to [close] it, and the second
    [close] panics. *)
Lemma overlapping_Halts_panic :
  run [CallHalt; CallHalt; StepHalt 0; StepHalt 1; StepHalt 0; StepHalt 1]
      (newChain (testhost.host0 2))
  = Crash "close of closed channel".
Proof. reflexivity. Qed.

(** C8 on the example host: with [main] blocked at its [select] and the
    exit channel open, a call of [Order] hands its transaction over and
    returns [nil]; after a [Halt], a call returns the error. *)
Lemma Order_fails_exactly_on_exit_witness :
  (step (StepOrder 0 SendSendChan) testhost.idle_chain = Step testhost.served_chain
   /\ orders testhost.served_chain !! 0 = Some (OrderReturned None)
   /\ exitChan testhost.served_chain = Open)
  /\ (step (StepOrder 0 OrderRecvExitChan) testhost.halted_chain
       = Step testhost.refused_chain
       /\ orders testhost.refused_chain !! 0
          = Some (OrderReturned (Some (Errorf "Exiting")))).
Proof.
  split.
  - split; [reflexivity |]. split; [reflexivity |].
    destruct (Order_fails_exactly_on_exit
                testhost.idle_chain (StepOrder 0 SendSendChan) testhost.served_chain
                0 testhost.tx1)
      as (Hret & _); [| reflexivity | left; reflexivity |].
    + exists (testhost.host0 2),
        [CallStart; StepMain MainBlock; CallOrder testhost.tx1 7]. reflexivity.
    + destruct (Hret None eq_refl) as [(_ & Hopen & _) | [Herr _]]; [exact Hopen | done].
  - split; [reflexivity |].
    destruct (Order_fails_exactly_on_exit
                testhost.halted_chain (StepOrder 0 OrderRecvExitChan)
                testhost.refused_chain 0 testhost.tx1)
      as (_ & _ & _ & Hexit & _); [| reflexivity | left; reflexivity |].
    + exists (testhost.host0 2),
        [CallStart; CallOrder testhost.tx1 7; CallHalt; StepHalt 0; StepHalt 0].
      reflexivity.
    + apply (Hexit eq_refl OrderRecvExitChan eq_refl).
Defined.

(** * Further properties *)

Import runs.

(** ** The system channel processor: outcomes *)

Section system_channel_outcomes.

Variable s : SystemChannel.t.

Local Abbreviation system_id := (ChainID (SystemChannel.support s)).
Local Abbreviation standard := (SystemChannel.StandardChannel_ s).

(** X1.  [SystemChannel.ProcessNormalMsg] accepts a message exactly when
    the message is addressed to the system channel and the standard
    processor accepts it, and then with the standard processor's sequence
    number.  When it fails, either the channel ID could not be extracted and
    it returns that error, or the message is for another channel and it
    returns [ErrChannelDoesNotExist], both with sequence number 0, or the
    result is the standard processor's. *)
Theorem SystemChannel_ProcessNormalMsg_outcomes (msg : Envelope) (configSeq : N) :
  (SystemChannel.ProcessNormalMsg s msg = (configSeq, None)
   <-> exists id, utils.ChannelID msg = (id, None) /\ id = system_id
                  /\ StandardChannel.ProcessNormalMsg standard msg = (configSeq, None))
  /\ (forall err,
        SystemChannel.ProcessNormalMsg s msg = (configSeq, Some err) ->
        (exists id, utils.ChannelID msg = (id, Some err) /\ configSeq = 0%N)
        \/ (exists id, utils.ChannelID msg = (id, None) /\ id <> system_id
                       /\ err = ErrChannelDoesNotExist /\ configSeq = 0%N)
        \/ (exists id, utils.ChannelID msg = (id, None) /\ id = system_id
                       /\ StandardChannel.ProcessNormalMsg standard msg
                          = (configSeq, Some err))).
Proof.
  unfold SystemChannel.ProcessNormalMsg.
  destruct (utils.ChannelID msg) as [id [e |]] eqn:Hid.
  - split.
    + split; [done |]. by intros (id' & [= _ ?] & _).
    + intros err [= <- <-]. left. by exists id.
  - destruct (decide (id <> system_id)) as [Hne | Heq].
    + split.
      * split; [done |]. intros (id' & [= <-] & Heq & _). done.
      * intros err [= <- <-]. right; left. by exists id.
    + apply dec_stable in Heq. split.
      * split; [intros Hstd; by exists id |]. by intros (id' & _ & _ & Hstd).
      * intros err Hstd. right; right. by exists id.
Qed.

(** X2.  A config update addressed to the system channel itself is handed
    to the standard processor and its result returned as it is; no channel
    is created: the system channel support plays no part in the result. *)
Theorem SystemChannel_ProcessConfigUpdateMsg_own_channel
    (msg : Envelope) (other : SystemChannelSupport) :
  utils.ChannelID msg = (system_id, None) ->
  SystemChannel.ProcessConfigUpdateMsg s msg
  = StandardChannel.ProcessConfigUpdateMsg standard msg
  /\ SystemChannel.ProcessConfigUpdateMsg
       {| SystemChannel.StandardChannel_ := standard;
          SystemChannel.systemChannelSupport := other |} msg
     = SystemChannel.ProcessConfigUpdateMsg s msg.
Proof.
  intros Hid. unfold SystemChannel.ProcessConfigUpdateMsg, SystemChannel.support.
  simpl. rewrite Hid. by rewrite !decide_True.
Qed.

(** X3.  On the paths of its own (the channel ID cannot be extracted, or it
    is not the system channel's), [SystemChannel.ProcessConfigUpdateMsg]
    never returns an error together with an envelope or a sequence number:
    a failure is [(nil, 0, err)].  The error is that of the first step that
    fails: extracting the channel ID, building the configuration manager,
    proposing the update, signing the CONFIG envelope, signing the
    ORDERER_TRANSACTION envelope. *)
Theorem SystemChannel_ProcessConfigUpdateMsg_failure
    (msg : Envelope) (config : option Envelope) (configSeq : N) (err : error) :
  (forall id, utils.ChannelID msg = (id, None) -> id <> system_id) ->
  SystemChannel.ProcessConfigUpdateMsg s msg = (config, configSeq, Some err) ->
  config = None /\ configSeq = 0%N
  /\ ((exists id, utils.ChannelID msg = (id, Some err))
      \/ exists id,
           utils.ChannelID msg = (id, None)
           /\ (NewChannelConfig (SystemChannel.systemChannelSupport s) msg = inr err
               \/ exists ctxm,
                    NewChannelConfig (SystemChannel.systemChannelSupport s) msg = inl ctxm
                    /\ (configtxapi.ProposeConfigUpdate ctxm msg = inr err
                        \/ exists genesis,
                             configtxapi.ProposeConfigUpdate ctxm msg = inl genesis
                             /\ let signed :=
                                  utils.CreateSignedEnvelope HeaderType_CONFIG id
                                    (Signer (SystemChannel.support s))
                                    (Some (MsgConfigEnvelope genesis)) msgVersion epoch in
                                (signed.2 = Some err
                                 \/ (signed.2 = None
                                     /\ (utils.CreateSignedEnvelope
                                           HeaderType_ORDERER_TRANSACTION system_id
                                           (Signer (SystemChannel.support s))
                                           (MsgEnvelope <$> signed.1)
                                           msgVersion epoch).2 = Some err))))).
Proof.
  intros Hother. unfold SystemChannel.ProcessConfigUpdateMsg.
  destruct (utils.ChannelID msg) as [id [e |]] eqn:Hid.
  { intros [= <- <- <-]. repeat split. left. by exists id. }
  rewrite decide_False by by apply Hother.
  destruct (NewChannelConfig _ msg) as [ctxm | e] eqn:Hnew.
  2: { intros [= <- <- <-]. repeat split. right. exists id. split; [done | by left]. }
  destruct (configtxapi.ProposeConfigUpdate ctxm msg) as [genesis | e] eqn:Hprop.
  2: { intros [= <- <- <-]. repeat split. right. exists id. split; [done | right].
       exists ctxm. split; [done | by left]. }
  destruct (utils.CreateSignedEnvelope HeaderType_CONFIG _ _ _ _ _)
    as [inner [e |]] eqn:Hin.
  { intros [= <- <- <-]. repeat split. right. exists id. split; [done | right].
    exists ctxm. split; [done | right]. exists genesis. split; [done |].
    simpl. rewrite Hin. by left. }
  destruct (utils.CreateSignedEnvelope HeaderType_ORDERER_TRANSACTION _ _ _ _ _)
    as [outer [e |]] eqn:Hout; [| done].
  intros [= <- <- <-]. repeat split. right. exists id. split; [done | right].
  exists ctxm. split; [done | right]. exists genesis. split; [done |].
  simpl. rewrite Hin. simpl. rewrite Hout. by right.
Qed.

End system_channel_outcomes.

(** X3 on an example: the signer fails, so creating ["newchan"] fails. *)
Lemma SystemChannel_ProcessConfigUpdateMsg_failure_witness :
  SystemChannel.ProcessConfigUpdateMsg testcases.keyless_system testhost.create_newchan
  = (None, 0%N, Some (Errorf "no signing key")).
Proof.
  destruct (SystemChannel_ProcessConfigUpdateMsg_failure
              testcases.keyless_system testhost.create_newchan
              None 0%N (Errorf "no signing key"))
    as (_ & _ & _); [| reflexivity | reflexivity].
  intros id Hid. vm_compute in Hid. injection Hid as <-. done.
Defined.

(** X2 on the example system channel: a config update for ["system"]. *)
Lemma SystemChannel_ProcessConfigUpdateMsg_own_channel_witness :
  SystemChannel.ProcessConfigUpdateMsg testhost.system testhost.config_update
  = (Some testhost.config_update, 7%N, None).
Proof.
  refine (eq_trans
            (proj1 (SystemChannel_ProcessConfigUpdateMsg_own_channel
                      testhost.system testhost.config_update
                      (SystemChannel.systemChannelSupport testhost.system) _)) _);
    reflexivity.
Defined.

(** ** The sequencing loop: what an iteration can be *)

Section loop_outcomes.

Context {S : Type} `{ConsenterSupport S}.

(** The five ways an iteration ends without a panic: a message is dropped
    with a warning; an accepted config-class message; a normal message the
    cutter was given; the timer; the exit signal. *)
Lemma main_iter_shape c timer (s : S) ctl s' tr :
  main_iter c timer s = Ok ctl s' tr ->
  (exists msg format,
     c = RecvSendChan msg /\ classified s msg = true
     /\ accepted s msg = false /\ config_accepted s msg = false
     /\ ctl = Continue timer /\ s' = s /\ tr = [EvWarning format]
     /\ EvWarning format <> no_pending_warning)
  \/ (exists msg batch s1,
        c = RecvSendChan msg /\ classified s msg = true
        /\ accepted s msg = true /\ config_accepted s msg = true
        /\ BlockCutter_Cut s = (batch, s1)
        /\ main_iter c timer s
           = let s2 := if is_nil batch then s1
                       else WriteBlock s1 (CreateNextBlock s1 batch) None in
             Ok (Continue None)
                (WriteConfigBlock s2 (CreateNextBlock s2 (Some [msg])) None)
                (EvCut batch
                   :: (if is_nil batch then []
                       else [EvWriteBlock (CreateNextBlock s1 batch)])
                   ++ [EvWriteConfigBlock (CreateNextBlock s2 (Some [msg]))]))
  \/ (exists msg batches ok s1,
        c = RecvSendChan msg /\ classified s msg = true
        /\ accepted s msg = ok /\ config_accepted s msg = false
        /\ BlockCutter_Ordered s msg = (batches, ok, s1)
        /\ main_iter c timer s
           = if ok && bool_decide (len batches = 0) && bool_decide (timer = None)
             then Ok (Continue (Some (SharedConfig_BatchTimeout s1))) s1
                    [EvOrdered msg batches ok]
             else Ok (Continue (if bool_decide (0 < len batches) then None else timer))
                    (write_batches s1 (elems batches)).1
                    (EvOrdered msg batches ok
                       :: (EvWriteBlock <$> (write_batches s1 (elems batches)).2)))
  \/ (exists batch s1,
        c = RecvTimer /\ BlockCutter_Cut s = (batch, s1)
        /\ main_iter c timer s
           = if bool_decide (len batch = 0)
             then Ok (Continue None) s1 [EvCut batch; no_pending_warning]
             else Ok (Continue None) (WriteBlock s1 (CreateNextBlock s1 batch) None)
                    [EvCut batch; EvDebug "Batch timer expired, creating block";
                     EvWriteBlock (CreateNextBlock s1 batch)])
  \/ (c = RecvExitChan /\ ctl = Return /\ s' = s /\ tr = [EvDebug "Exiting"]).
Proof.
  destruct c as [msg | |].
  - destruct (utils.ChannelHeader msg) as [chdr [herr|]] eqn:Hh.
    { intros Hok. destruct (main_header_failure msg timer s chdr herr Hh) as [f Hf].
      by rewrite Hf in Hok. }
    destruct (ClassifyMsg s chdr) as [class [cerr|]] eqn:Hc.
    { intros Hok.
      destruct (main_classification_failure msg timer s chdr class cerr Hh Hc) as [f Hf].
      by rewrite Hf in Hok. }
    destruct (ProcessNormalMsg s msg) as [configSeq [err|]] eqn:Hp;
      (destruct (decide (class = ConfigUpdateMsg)) as [-> | Hcu];
       [| destruct (decide (class = NormalMsg)) as [-> | Hn]]);
      try (intros Hok;
           destruct (main_unsupported_class msg timer s chdr class Hh Hc Hcu Hn) as [f Hf];
           by rewrite Hf in Hok).
    + rewrite (main_config_msg_rejected msg timer s chdr configSeq err Hh Hc Hp).
      intros [= <- <- <-]. left. eexists msg, _.
      unfold classified, accepted, config_accepted. rewrite Hh, Hc, Hp.
      repeat split; try done; apply bool_decide_eq_true_2; by left.
    + rewrite (main_normal_msg_rejected msg timer s chdr configSeq err Hh Hc Hp).
      intros [= <- <- <-]. left. eexists msg, _.
      unfold classified, accepted, config_accepted. rewrite Hh, Hc, Hp.
      repeat split; try done; apply bool_decide_eq_true_2; by right.
    + intros _. right; left.
      destruct (BlockCutter_Cut s) as [batch s1] eqn:Hcut.
      exists msg, batch, s1.
      unfold classified, accepted, config_accepted. rewrite Hh, Hc, Hp.
      repeat split; try done;
        first [by apply (main_config_msg msg timer s chdr configSeq)
              | apply bool_decide_eq_true_2; by left].
    + intros _. right; right; left.
      destruct (BlockCutter_Ordered s msg) as [[batches ok] s1] eqn:Ho.
      exists msg, batches, ok, s1.
      unfold classified, accepted, config_accepted. rewrite Hh, Hc, Hp, Ho.
      repeat split; try done;
        first [by apply (main_normal_msg msg timer s chdr configSeq)
              | apply bool_decide_eq_true_2; by right].
  - intros _. right; right; right; left.
    destruct (BlockCutter_Cut s) as [batch s1] eqn:Hcut.
    exists batch, s1. repeat split. by apply main_timer.
  - intros [= <- <- <-]. by repeat right.
Qed.

(** Only the exit case returns. *)
Lemma main_iter_Return c timer (s : S) s' tr :
  main_iter c timer s = Ok Return s' tr -> c = RecvExitChan.
Proof.
  intros Hit.
  destruct (main_iter_shape c timer s Return s' tr Hit)
    as [(msg & f & _ & _ & _ & _ & Hctl & _)
       | [(msg & batch & s1 & _ & _ & _ & _ & _ & Heq)
         | [(msg & batches & ok & s1 & _ & _ & _ & _ & _ & Heq)
           | [(batch & s1 & _ & _ & Heq) | (Hc & _)]]]];
    try done; rewrite Heq in Hit; simpl in Hit.
  - done.
  - by destruct (ok && _ && _).
  - by case_bool_decide.
Qed.

(** X4.  A loop that only receives messages whose headers can be
    re-derived and that classify as [NormalMsg] or [ConfigUpdateMsg] never
    panics, whatever re-validation, the cutter and the timer do. *)
Theorem main_never_panics_on_classified_messages
    (cases : list main_case) (timer : timer_chan) (s : S) :
  (forall msg s0, RecvSendChan msg ∈ cases -> classified s0 msg = true) ->
  exists ctl s' tr, main_from timer cases s = Ok ctl s' tr.
Proof.
  revert timer s. induction cases as [| c cases IH]; intros timer s Hall.
  - by eexists _, _, _.
  - assert (exists ctl1 s1 tr1, main_iter c timer s = Ok ctl1 s1 tr1)
      as (ctl1 & s1 & tr1 & Hit).
    { destruct c as [msg | |].
      - specialize (Hall msg s (list_elem_of_here _ _)).
        unfold classified in Hall.
        destruct (utils.ChannelHeader msg) as [chdr [herr|]] eqn:Hh; [done |].
        destruct (ClassifyMsg s chdr) as [class [cerr|]] eqn:Hc; [done |].
        apply bool_decide_eq_true_1 in Hall.
        by apply (main_supported_class msg timer s chdr class).
      - destruct (BlockCutter_Cut s) as [batch s1] eqn:Hcut.
        rewrite (main_timer timer s batch s1 Hcut).
        case_bool_decide; by eexists _, _, _.
      - by eexists _, _, _. }
    simpl. unfold mbind, M_bind, bind. rewrite Hit.
    destruct ctl1 as [timer1 |]; [| by eexists _, _, _].
    destruct (IH timer1 s1) as (ctl & s' & tr & Hrest).
    { intros msg s0 Hin. apply Hall. by apply list_elem_of_further. }
    rewrite Hrest. by eexists _, _, _.
Qed.

(** The config-class messages a run accepts are among its accepted
    messages, and the accepted messages among the messages received. *)
Lemma accepted_messages_received cases timer (s : S) msg :
  msg ∈ accepted_messages timer cases s -> RecvSendChan msg ∈ cases.
Proof.
  revert timer s. induction cases as [| c cases IH]; intros timer s; simpl.
  - by intros ?%elem_of_nil.
  - intros [Hc | Hrest]%elem_of_app.
    + destruct c as [m | |]; simpl in Hc; try by apply elem_of_nil in Hc.
      destruct (accepted s m); [| by apply elem_of_nil in Hc].
      apply list_elem_of_singleton in Hc as ->. apply list_elem_of_here.
    + apply list_elem_of_further.
      destruct (main_iter c timer s) as [[t1 |] s1 tr1 |]; try by apply elem_of_nil in Hrest.
      by eapply IH.
Qed.

(** X5.  The config blocks of a run are written for its accepted
    config-class messages and for nothing else: as many config blocks as
    such messages, the n-th block created from the one-element batch of the
    n-th message.  Normal messages, rejected messages and the timer never
    lead to [WriteConfigBlock]. *)
Theorem config_blocks_are_the_accepted_config_messages
    (cases : list main_case) (timer : timer_chan) (s : S)
    (ctl : control) (s' : S) (tr : list event) :
  main_from timer cases s = Ok ctl s' tr ->
  Forall2 (fun block msg => exists s0, block = CreateNextBlock s0 (Some [msg]))
          (config_blocks tr) (accepted_config_messages timer cases s).
Proof.
  revert timer s ctl s' tr.
  induction cases as [| c cases IH]; intros timer s ctl s' tr.
  - intros [= <- <- <-]. constructor.
  - simpl. unfold mbind, M_bind, bind.
    destruct (main_iter c timer s) as [ctl1 s1 tr1 | f] eqn:Hit; [| done].
    assert (Forall2 (fun block msg => exists s0, block = CreateNextBlock s0 (Some [msg]))
                    (config_blocks tr1) (config_accepted_of c s)) as Hone.
    { destruct (main_iter_shape c timer s ctl1 s1 tr1 Hit)
        as [(msg & f & -> & _ & _ & Hcfg & _ & _ & -> & _)
           | [(msg & batch & s2 & -> & _ & _ & Hcfg & _ & Heq)
             | [(msg & batches & ok & s2 & -> & _ & _ & Hcfg & _ & Heq)
               | [(batch & s2 & -> & _ & Heq) | (-> & _ & _ & ->)]]]];
        simpl; rewrite ?Hcfg; try (rewrite Heq in Hit; simpl in Hit).
      - constructor.
      - injection Hit as _ _ <-.
        destruct batch; simpl; repeat constructor; by eexists.
      - destruct (ok && _ && _); injection Hit as _ _ <-; [constructor |].
        change (EvOrdered msg batches ok :: ?l) with ([EvOrdered msg batches ok] ++ l).
        rewrite config_blocks_app.
        destruct (observations_of_writes (write_batches s2 (elems batches)).2)
          as (_ & _ & -> & _).
        constructor.
      - case_bool_decide; injection Hit as _ _ <-; constructor.
      - constructor. }
    destruct ctl1 as [timer1 |].
    + destruct (main_from timer1 cases s1) as [ctl2 s2 tr2 | f] eqn:Hrest; [| done].
      intros [= <- <- <-]. rewrite config_blocks_app.
      apply Forall2_app; [done | by eapply IH].
    + intros [= <- <- <-]. by rewrite !app_nil_r.
Qed.

End loop_outcomes.

(** ** The ordering guarantee: what is and is not in a block *)

Section block_contents.

Context {S : Type} `{OrderPreservingSupport S}.

(** X6.  Every envelope in a block that a run writes was pending in the
    cutter when the run started or is a message the run received and
    accepted: no block carries a message that failed re-validation or that
    the cutter refused, and the loop puts nothing of its own into a
    block. *)
Theorem blocks_carry_only_accepted_messages
    (cases : list main_case) (timer : timer_chan) (s : S)
    (ctl : control) (s' : S) (tr : list event) (block : Block) (msg : Envelope) :
  main_from timer cases s = Ok ctl s' tr ->
  block ∈ blocks_written tr ->
  msg ∈ Data block ->
  msg ∈ cutter_pending s
  \/ (msg ∈ accepted_messages timer cases s /\ RecvSendChan msg ∈ cases).
Proof.
  intros Hrun Hblock Hmsg.
  destruct (main_from_keeps_order cases timer s ctl s' tr Hrun) as (Hord & _ & _).
  assert (msg ∈ concat (Data <$> blocks_written tr) ++ cutter_pending s') as Hin.
  { apply elem_of_app. left. apply list_elem_of_In, in_concat.
    exists (Data block). split; apply list_elem_of_In; [| done].
    by apply list_elem_of_fmap_2. }
  rewrite Hord in Hin. apply elem_of_app in Hin as [Hp | Ha]; [by left | right].
  split; [done | by eapply accepted_messages_received].
Qed.

(** A case that flushes leaves nothing pending. *)
Lemma flush_leaves_nothing_pending c timer (s : S) t s' tr :
  main_iter c timer s = Ok (Continue t) s' tr ->
  flushes c s = true ->
  cutter_pending s' = [] /\ t = None.
Proof.
  intros Hit Hfl.
  destruct (main_iter_shape c timer s (Continue t) s' tr Hit)
    as [(msg & f & -> & _ & _ & Hcfg & _)
       | [(msg & batch & s1 & -> & _ & _ & _ & Hcut & Heq)
         | [(msg & batches & ok & s1 & -> & _ & _ & Hcfg & _)
           | [(batch & s1 & -> & Hcut & Heq) | (-> & _)]]]];
    simpl in Hfl; try congruence;
    rewrite Heq in Hit; destruct (Cut_takes_pending s batch s1 Hcut) as [_ Hs1].
  - simpl in Hit. injection Hit as <- <- _.
    rewrite WriteConfigBlock_keeps_pending.
    destruct batch; simpl; by rewrite ?WriteBlock_keeps_pending.
  - case_bool_decide; injection Hit as <- <- _;
      by rewrite ?WriteBlock_keeps_pending.
Qed.

(** X7.  Right after the timer case or an accepted config-class message,
    nothing is pending in the cutter and [timer] is [nil], and the blocks
    written so far carry exactly what was pending at the start followed by
    the accepted messages, in the order received. *)
Theorem blocks_exact_after_flush
    (cases : list main_case) (c : main_case) (timer : timer_chan) (s : S)
    (t : timer_chan) (s' : S) (tr : list event) :
  main_from timer (cases ++ [c]) s = Ok (Continue t) s' tr ->
  (forall t1 s1 tr1,
     main_from timer cases s = Ok (Continue t1) s1 tr1 -> flushes c s1 = true) ->
  cutter_pending s' = [] /\ t = None
  /\ concat (Data <$> blocks_written tr)
     = cutter_pending s ++ accepted_messages timer (cases ++ [c]) s.
Proof.
  intros Hrun Hfl.
  destruct (main_from_keeps_order _ _ _ _ _ _ Hrun) as (Hord & _ & _).
  destruct (main_from_snoc _ _ _ _ _ _ _ Hrun) as (t1 & s1 & tr1 & tr2 & Hcases & Hlast).
  destruct (flush_leaves_nothing_pending c t1 s1 t s' tr2 Hlast (Hfl _ _ _ Hcases))
    as [Hp ->].
  rewrite Hp, app_nil_r in Hord. done.
Qed.

End block_contents.

(** ** The two files together *)

Section system_channel_chain.

Context {S : Type} `{ConsenterSupport S}.

(** The system channel processor a host validates with, in each state. *)
Variable processor : S -> SystemChannel.t.

Hypothesis ProcessNormalMsg_is_the_system_channel's :
  forall s msg,
    ProcessNormalMsg s msg = SystemChannel.ProcessNormalMsg (processor s) msg.

(** X8.  On the chain of the system channel, a message that is addressed
    to another channel and reaches the loop is dropped with a warning,
    whatever its class: the cutter is not called, nothing is written, the
    state and [timer] stay as they are. *)
Theorem system_chain_drops_messages_for_other_channels
    (msg : Envelope) (timer : timer_chan) (s : S) (id : string) :
  classified s msg = true ->
  utils.ChannelID msg = (id, None) ->
  id <> ChainID (SystemChannel.support (processor s)) ->
  exists format,
    main_iter (RecvSendChan msg) timer s = Ok (Continue timer) s [EvWarning format]
    /\ ProcessNormalMsg s msg = (0%N, Some ErrChannelDoesNotExist).
Proof.
  intros Hcl Hid Hne. unfold classified in Hcl.
  destruct (utils.ChannelHeader msg) as [chdr [herr|]] eqn:Hh; [done |].
  destruct (ClassifyMsg s chdr) as [class [cerr|]] eqn:Hc; [done |].
  apply bool_decide_eq_true_1 in Hcl.
  assert (ProcessNormalMsg s msg = (0%N, Some ErrChannelDoesNotExist)) as Hp.
  { rewrite ProcessNormalMsg_is_the_system_channel's.
    by apply (ProcessNormalMsg_other_channel _ msg id). }
  destruct Hcl as [-> | ->]; eexists; (split; [| done]).
  - by apply (main_config_msg_rejected msg timer s chdr 0%N ErrChannelDoesNotExist).
  - by apply (main_normal_msg_rejected msg timer s chdr 0%N ErrChannelDoesNotExist).
Qed.

End system_channel_chain.

(** ** The life of a chain *)

Section chain_life.

Context {S : Type} `{ConsenterSupport S}.

Implicit Types (ch : @chain S) (l : label).

Lemma main_takes_is c timer ch ch' :
  main_takes c timer ch = Step ch' ->
  exists ctl s tr,
    main_iter c timer (support ch) = Ok ctl s tr
    /\ ch' = set_main_g (log (set_support ch s) tr)
               match ctl with
               | Continue timer' => MainSelect timer'
               | Return => MainReturned
               end.
Proof.
  unfold main_takes.
  destruct (main_iter c timer (support ch)) as [ctl s tr | f]; [| done].
  intros [= <-]. by exists ctl, s, tr.
Qed.

(** A step of the chain either leaves the loop out or is one iteration of
    the loop, on the case its [select] could take. *)
Lemma step_shape l ch ch' :
  step l ch = Step ch' ->
  (support ch' = support ch
   /\ ((trace ch' = trace ch /\ exitChan ch' = exitChan ch)
       \/ (trace ch' = trace ch ++ [EvCloseExitChan]
           /\ exitChan ch = Open /\ exitChan ch' = Closed))
   /\ (main_g ch' = main_g ch
       \/ (main_g ch = MainNotStarted /\ main_g ch' = MainSelect None)
       \/ (exists t, main_g ch = MainSelect t /\ main_g ch' = MainBlocked t))
   /\ (Forall (fun o => ~ served o) (orders ch) ->
       Forall (fun o => ~ served o) (orders ch')))
  \/ (exists c timer pre ctl s tr,
        (main_g ch = MainSelect timer \/ main_g ch = MainBlocked timer)
        /\ main_iter c timer (support ch) = Ok ctl s tr
        /\ support ch' = s
        /\ trace ch' = (trace ch ++ pre) ++ tr
        /\ ((pre = [] /\ exitChan ch' = exitChan ch)
            \/ (pre = [EvCloseExitChan] /\ exitChan ch = Open))
        /\ main_g ch' = match ctl with
                        | Continue timer' => MainSelect timer'
                        | Return => MainReturned
                        end
        /\ (c = RecvTimer -> timer <> None)
        /\ (c = RecvExitChan -> exitChan ch' = Closed)).
Proof.
  intros Hstep.
  destruct l as [| env seq | cu env seq | | i c | c | k |]; simpl in Hstep.
  - left. unfold Start in Hstep. destruct (main_g ch) eqn:Hg; try done.
    injection Hstep as <-. simpl. rewrite ?Hg.
    split; [done |]. split; [by left |]. split; [by right; left | done].
  - left. injection Hstep as <-. simpl.
    split; [done |]. split; [by left |]. split; [by left |].
    intros Hall. apply Forall_app. split; [done |]. by repeat constructor.
  - left. injection Hstep as <-. simpl.
    split; [done |]. split; [by left |]. split; [by left |].
    intros Hall. apply Forall_app. split; [done |]. by repeat constructor.
  - left. injection Hstep as <-. simpl.
    split; [done |]. split; [by left |]. split; [by left | done].
  - unfold order_step in Hstep.
    destruct (orders ch !! i) as [[env | env | err] |] eqn:Hi; try done.
    unfold Order_select in Hstep. destruct c.
    + right. destruct (main_blocked ch) eqn:Hmb; [| done].
      destruct (main_g ch) as [| | timer |] eqn:Hg; try done.
      apply main_takes_is in Hstep as (ctl & s & tr & Hit & ->). simpl in *.
      exists (RecvSendChan env), timer, [], ctl, s, tr.
      rewrite app_nil_r. repeat split; try done; first [by right | by left].
    + left. destruct (ready (exitChan ch)) eqn:Hr; [| done].
      injection Hstep as <-. simpl.
      split; [done |]. split; [by left |]. split; [by left |].
      intros Hall. by apply Forall_insert.
    + left. destruct (main_blocked ch || ready (exitChan ch)) eqn:Hr; [done |].
      injection Hstep as <-. simpl.
      split; [done |]. split; [by left |]. split; [by left |].
      intros Hall. by apply Forall_insert.
  - unfold main_step in Hstep. destruct (main_g ch) as [| timer | |] eqn:Hg; try done.
    destruct c as [i | | |].
    + right. destruct (orders ch !! i) as [[| env |] |] eqn:Hi; try done.
      apply main_takes_is in Hstep as (ctl & s & tr & Hit & ->). simpl in *.
      exists (RecvSendChan env), timer, [], ctl, s, tr.
      rewrite app_nil_r. repeat split; try done; by left.
    + right. destruct timer as [d |]; [| done].
      apply main_takes_is in Hstep as (ctl & s & tr & Hit & ->). simpl in *.
      exists RecvTimer, (Some d), [], ctl, s, tr.
      rewrite app_nil_r. repeat split; try done; by left.
    + right. destruct (ready (exitChan ch)) eqn:Hr; [| done].
      apply main_takes_is in Hstep as (ctl & s & tr & Hit & ->). simpl in *.
      exists RecvExitChan, timer, [], ctl, s, tr.
      rewrite app_nil_r. repeat split; try done; try by left.
      intros _. by destruct (exitChan ch).
    + left. destruct (existsb is_blocked (orders ch) || ready (exitChan ch)); [done |].
      injection Hstep as <-. simpl. rewrite ?Hg.
      split; [done |]. split; [by left |]. split; [| done].
      right; right. by exists timer.
  - unfold halt_step in Hstep. destruct (halts ch !! k) as [[| |] |] eqn:Hk; try done.
    + left. injection Hstep as <-. simpl.
      split; [done |]. split; [by left |]. split; [by left | done].
    + unfold close_exitChan in Hstep. simpl in Hstep.
      destruct (exitChan ch) eqn:He; simpl in Hstep; [| done].
      destruct (main_g ch) as [| | timer |] eqn:Hg.
      1, 2, 4: left; injection Hstep as <-; simpl; rewrite ?Hg;
        (split; [done |]); (split; [by right |]); (split; [by left |]);
        intros Hall; apply Forall_fmap; eapply Forall_impl; [exact Hall |];
        by intros [].
      right. apply main_takes_is in Hstep as (ctl & s & tr & Hit & ->). simpl in *.
      exists RecvExitChan, timer, [EvCloseExitChan], ctl, s, tr.
      repeat split; try done; by right.
  - right. unfold timer_expires in Hstep.
    destruct (main_g ch) as [| | [d |] |] eqn:Hg; try done.
    apply main_takes_is in Hstep as (ctl & s & tr & Hit & ->). simpl in *.
    exists RecvTimer, (Some d), [], ctl, s, tr.
    rewrite app_nil_r. repeat split; try done; first [by right | by left].
Qed.

(** Induction over the schedules of a chain. *)
Lemma run_preserves (P : @chain S -> Prop) :
  (forall l ch ch', P ch -> step l ch = Step ch' -> P ch') ->
  forall ls ch ch', P ch -> run ls ch = Step ch' -> P ch'.
Proof.
  intros Hstep ls. induction ls as [| l ls IH]; intros ch ch' HP; simpl.
  - by intros [= <-].
  - destruct (step l ch) as [ch1 | |] eqn:Hs; try done.
    apply IH. by eapply Hstep.
Qed.

Lemma reachable_preserves (P : @chain S -> Prop) :
  (forall s, P (newChain s)) ->
  (forall l ch ch', P ch -> step l ch = Step ch' -> P ch') ->
  forall ch, reachable ch -> P ch.
Proof.
  intros Hinit Hstep ch (s & ls & Hrun).
  by eapply (run_preserves P Hstep ls (newChain s)).
Qed.

(** [main] returns only on a closed exit channel. *)
Lemma returned_means_closed ch :
  reachable ch -> main_g ch = MainReturned -> exitChan ch = Closed.
Proof.
  revert ch.
  apply (reachable_preserves
           (fun c => main_g c = MainReturned -> exitChan c = Closed)); [done |].
  intros l ch ch' IH Hstep Hret.
  destruct (step_shape l ch ch' Hstep)
    as [(_ & Htr & Hg & _)
       | (c & timer & pre & ctl & s & tr & _ & Hit & _ & _ & _ & Hg' & _ & Hexit)].
  - destruct Htr as [[_ He] | (_ & _ & He)]; [| done].
    destruct Hg as [Hg | [[_ Hg] | (t & _ & Hg)]]; try congruence.
    rewrite He. apply IH. congruence.
  - rewrite Hret in Hg'. destruct ctl as [t |]; [done |].
    apply Hexit. by eapply main_iter_Return.
Qed.

(** X9.  Once [main] has returned the chain is finished: whatever calls
    are made and whatever steps are taken afterwards, [main] stays
    returned, the state of the host (cutter, ledger) and the trace stay as
    they are, so no block is written any more, and the exit channel stays
    closed. *)
Theorem nothing_happens_after_main_returns (ch : chain) (ls : list label) (ch' : chain) :
  reachable ch ->
  main_g ch = MainReturned ->
  run ls ch = Step ch' ->
  main_g ch' = MainReturned /\ support ch' = support ch
  /\ trace ch' = trace ch /\ exitChan ch' = Closed.
Proof.
  intros Hreach Hret Hrun.
  pose proof (returned_means_closed ch Hreach Hret) as Hclosed.
  revert Hrun.
  apply (run_preserves
           (fun c => main_g c = MainReturned /\ support c = support ch
                     /\ trace c = trace ch /\ exitChan c = Closed)); [| done].
  clear ch'. intros l c c' (Hg & Hs & Ht & He) Hstep.
  destruct (step_shape l c c' Hstep)
    as [(Hs' & Htr & Hg' & _)
       | (? & timer & _ & _ & _ & _ & Hsel & _)].
  - destruct Htr as [[Htr He'] | (_ & Hopen & _)]; [| congruence].
    destruct Hg' as [Hg' | [[Hg' _] | (t & Hg' & _)]]; try congruence.
    repeat split; congruence.
  - destruct Hsel; congruence.
Qed.

(** A trace of closings only. *)
Lemma closes_only tr :
  Forall (fun e => e = EvCloseExitChan) tr -> closes tr = length tr.
Proof.
  induction 1 as [| e tr -> _ IH]; [done |].
  change (EvCloseExitChan :: tr) with ([EvCloseExitChan] ++ tr).
  rewrite closes_app, IH. done.
Qed.

(** X10.  The chain [HandleChain] returns does nothing before [Start]:
    whatever calls of [Order], [Configure] and [Halt] are made and however
    they are scheduled, as long as [main] is not started the state of the
    host is the one the chain was built with, no call of [Order] has
    returned [nil], and the trace holds nothing but the closing of the exit
    channel, if [Halt] has closed it. *)
Theorem chain_is_inert_before_Start
    (support0 : S) (metadata : slice byte) (ls : list label) (ch : chain) :
  run ls (HandleChain support0 metadata).1 = Step ch ->
  main_g ch = MainNotStarted ->
  support ch = support0
  /\ Forall (fun o => ~ served o) (orders ch)
  /\ trace ch = (if ready (exitChan ch) then [EvCloseExitChan] else []).
Proof.
  intros Hrun Hns.
  assert (reachable ch) as Hreach by by exists support0, ls.
  destruct (reachable_inv ch Hreach) as [_ Hcl].
  enough (support ch = support0
          /\ Forall (fun o => ~ served o) (orders ch)
          /\ Forall (fun e => e = EvCloseExitChan) (trace ch)) as (Hs & Ho & Ht).
  { split; [done |]. split; [done |].
    rewrite (closes_only _ Ht) in Hcl.
    destruct (ready (exitChan ch)), Ht as [| e [| e' tr] -> Ht]; simpl in Hcl;
      try done; lia. }
  revert Hns. revert Hrun.
  apply (run_preserves
           (fun c => main_g c = MainNotStarted ->
                     support c = support0
                     /\ Forall (fun o => ~ served o) (orders c)
                     /\ Forall (fun e => e = EvCloseExitChan) (trace c)));
    [| by intros _].
  clear ch Hreach Hcl. intros l c c' IH Hstep Hns.
  destruct (step_shape l c c' Hstep)
    as [(Hs' & Htr & Hg' & Hord)
       | (? & timer & _ & ctl & _ & _ & _ & _ & _ & _ & _ & Hg' & _)].
  - assert (main_g c = MainNotStarted) as Hc.
    { destruct Hg' as [Hg' | [[Hg' ?] | (t & _ & Hg')]]; congruence. }
    destruct (IH Hc) as (Hs & Ho & Ht).
    split; [congruence |]. split; [by apply Hord |].
    destruct Htr as [[-> _] | (-> & _)]; [done |].
    apply Forall_app. split; [done | by repeat constructor].
  - rewrite Hns in Hg'. by destruct ctl.
Qed.

(** X11.  The call of [Halt] that finds the exit channel open closes it,
    returns every blocked call of [Order] with the error and leaves the
    other calls alone, makes a blocked [main] return, and touches nothing
    else: the cutter is not cut, no block is written, the state of the host
    is as before.  What was pending stays pending. *)
Theorem Halt_releases_and_writes_nothing (ch : chain) :
  exitChan ch = Open ->
  exists ch1,
    Halt ch = Step ch1
    /\ exitChan ch1 = Closed
    /\ orders ch1 = wake_order <$> orders ch
    /\ (forall i env, orders ch !! i = Some (OrderBlocked env) ->
        orders ch1 !! i = Some (OrderReturned (Some (Errorf "Exiting"))))
    /\ (forall i o, orders ch !! i = Some o -> is_blocked o = false ->
        orders ch1 !! i = Some o)
    /\ main_g ch1 = (if main_blocked ch then MainReturned else main_g ch)
    /\ support ch1 = support ch
    /\ blocks_written (trace ch1) = blocks_written (trace ch)
    /\ cutter_batches (trace ch1) = cutter_batches (trace ch).
Proof.
  intros He. unfold Halt, Halt_select, close_exitChan. rewrite He. simpl.
  assert (forall os : list order_call,
            (forall i env, os !! i = Some (OrderBlocked env) ->
               (wake_order <$> os) !! i = Some (OrderReturned (Some (Errorf "Exiting"))))
            /\ (forall i o, os !! i = Some o -> is_blocked o = false ->
                  (wake_order <$> os) !! i = Some o)) as Hwake.
  { intros os. split.
    - intros i env Hi. by rewrite list_lookup_fmap, Hi.
    - intros i o Hi Hb. rewrite list_lookup_fmap, Hi. by destruct o. }
  destruct (Hwake (orders ch)) as [Hw1 Hw2].
  destruct (main_g ch) as [| timer | timer |] eqn:Hg;
    unfold main_blocked; rewrite Hg; eexists; (split; [done |]); simpl;
    rewrite ?Hg, ?blocks_written_app, ?cutter_batches_app, ?app_nil_r;
    repeat split; done.
Qed.

End chain_life.

(** ** The batch timer *)

Section batch_timer.

Context {S : Type} `{OrderPreservingSupport S}.

Implicit Types (ch : @chain S).

Ltac no_warning :=
  let Hin := fresh "Hin" in
  intros Hin; unfold no_pending_warning in Hin;
  repeat (apply elem_of_cons in Hin as [Hin | Hin]; [discriminate |]);
  by apply elem_of_nil in Hin.

(** One iteration keeps the timer to a cutter that holds something, and
    does not reach the warning of the timer case. *)
Lemma main_iter_timer c timer (s : S) ctl s' tr :
  main_iter c timer s = Ok ctl s' tr ->
  (timer <> None -> cutter_pending s <> []) ->
  (c = RecvTimer -> timer <> None) ->
  (forall timer', ctl = Continue timer' -> timer' <> None -> cutter_pending s' <> [])
  /\ no_pending_warning ∉ tr.
Proof.
  intros Hit Hinv Htimer.
  destruct (main_iter_shape c timer s ctl s' tr Hit)
    as [(msg & f & -> & _ & _ & _ & -> & -> & -> & Hw)
       | [(msg & batch & s1 & -> & _ & _ & _ & Hcut & Heq)
         | [(msg & batches & ok & s1 & -> & _ & _ & _ & Hord & Heq)
           | [(batch & s1 & -> & Hcut & Heq) | (-> & -> & -> & ->)]]]].
  - split.
    + by intros timer' [= <-].
    + intros Hin. apply list_elem_of_singleton in Hin. congruence.
  - rewrite Heq in Hit. simpl in Hit. injection Hit as <- <- <-. split.
    + by intros timer' [= <-].
    + destruct (is_nil batch); no_warning.
  - rewrite Heq in Hit.
    pose proof (Ordered_keeps_order _ _ _ _ _ Hord) as Hk.
    destruct (ok && bool_decide (len batches = 0) && bool_decide (timer = None))
      eqn:Harm.
    + injection Hit as <- <- <-.
      apply andb_prop in Harm as [Harm _]. apply andb_prop in Harm as [-> Hlen].
      apply bool_decide_eq_true in Hlen.
      rewrite (len_0_elems _ Hlen) in Hk. simpl in Hk. split.
      * intros _ _ _ Hnil. rewrite Hnil in Hk. by destruct (cutter_pending s).
      * no_warning.
    + injection Hit as <- <- <-. split.
      * intros timer' [= <-] Ht'. case_bool_decide as Hlen; [done |].
        assert (len batches = 0) as Hlen0 by lia.
        rewrite (len_0_elems _ Hlen0) in Hk |- *. simpl in Hk |- *.
        intros Hnil. rewrite Hnil in Hk. apply (Hinv Ht').
        by destruct (cutter_pending s).
      * intros Hin. unfold no_pending_warning in Hin.
        apply elem_of_cons in Hin as [Hin | Hin]; [done |].
        by apply list_elem_of_fmap in Hin as (block & Hb & _).
  - rewrite Heq in Hit. destruct (Cut_takes_pending _ _ _ Hcut) as [Hb _].
    case_bool_decide as Hlen.
    + exfalso. apply (Hinv (Htimer eq_refl)). rewrite <- Hb. by apply len_0_elems.
    + injection Hit as <- <- <-. split; [by intros timer' [= <-] | no_warning].
  - split; [done | no_warning].
Qed.

(** X12.  Over a host whose cutter keeps to its contract, in every state a
    chain can get into the batch timer is armed only while the cutter holds
    pending messages, so the timer case of [main] always finds a batch to
    write: its branch for an empty cut, with the warning that this might
    indicate a bug, is never taken. *)
Theorem timer_is_armed_only_over_pending_messages (ch : chain) :
  reachable ch ->
  (timer_of (main_g ch) <> None -> cutter_pending (support ch) <> [])
  /\ no_pending_warning ∉ trace ch.
Proof.
  revert ch.
  apply (reachable_preserves
           (fun c => (timer_of (main_g c) <> None -> cutter_pending (support c) <> [])
                     /\ no_pending_warning ∉ trace c)).
  { intros s. split; [done |]. simpl. apply not_elem_of_nil. }
  intros l ch ch' [Harmed Hlog] Hstep.
  destruct (step_shape l ch ch' Hstep)
    as [(Hs & Htr & Hg & _)
       | (c & timer & pre & ctl & s & tr & Hsel & Hit & Hs & Htr & Hpre & Hg & Hc & _)].
  - split.
    + rewrite Hs. intros Ht. apply Harmed.
      destruct Hg as [Hg | [[_ Hg] | (t & Hg1 & Hg2)]].
      * by rewrite <- Hg.
      * by rewrite Hg in Ht.
      * rewrite Hg1. by rewrite Hg2 in Ht.
    + destruct Htr as [[-> _] | (-> & _)]; [done |].
      intros Hin. apply elem_of_app in Hin as [Hin | Hin]; [done |].
      by apply list_elem_of_singleton in Hin.
  - assert (timer_of (main_g ch) = timer) as Htm by (by destruct Hsel as [-> | ->]).
    rewrite Htm in Harmed.
    destruct (main_iter_timer c timer (support ch) ctl s tr Hit Harmed Hc) as [Hnext Hnow].
    split.
    + rewrite Hg, Hs. destruct ctl as [timer' |]; simpl; [| done].
      by apply Hnext.
    + rewrite Htr. intros Hin.
      apply elem_of_app in Hin as [Hin | Hin]; [| done].
      apply elem_of_app in Hin as [Hin | Hin]; [done |].
      destruct Hpre as [[-> _] | [-> _]].
      * by apply elem_of_nil in Hin.
      * by apply list_elem_of_singleton in Hin.
Qed.

End batch_timer.

(** ** The further properties on the example host *)

(** X1 on the example system channel: a transaction for ["system"] has the
    sequence number of the standard processor, one for ["nochan"] is
    refused. *)
Lemma SystemChannel_ProcessNormalMsg_outcomes_witness :
  SystemChannel.ProcessNormalMsg testhost.system testhost.tx1 = (7%N, None)
  /\ SystemChannel.ProcessNormalMsg testhost.system testhost.stray_tx
     = (0%N, Some ErrChannelDoesNotExist).
Proof.
  split.
  - apply (SystemChannel_ProcessNormalMsg_outcomes testhost.system testhost.tx1 7%N).
    exists "system". repeat split; reflexivity.
  - destruct (SystemChannel_ProcessNormalMsg_outcomes
                testhost.system testhost.stray_tx 0%N) as [_ Herr].
    destruct (Herr ErrChannelDoesNotExist eq_refl)
      as [(id & Hid & _) | [(id & _ & _ & _ & _) | (id & _ & Hid & _)]];
      [discriminate Hid | reflexivity | reflexivity].
Defined.

(** X4 on the example host: transactions, one too big, a config update and
    a stray transaction, then the timer. *)
Lemma main_never_panics_on_classified_messages_witness :
  exists ctl s' tr,
    main_from None (testcases.mixed_cases ++ [RecvTimer]) (testhost.host0 2)
    = Ok ctl s' tr.
Proof.
  apply (main_never_panics_on_classified_messages
           (testcases.mixed_cases ++ [RecvTimer]) None (testhost.host0 2)).
  intros msg s0 Hin.
  repeat (apply elem_of_cons in Hin as [Hin | Hin];
          [first [injection Hin as ->; reflexivity | discriminate Hin] |]).
  by apply elem_of_nil in Hin.
Defined.

(** X5 on the example host: of six messages one is an accepted config
    update, and one config block is written, for it. *)
Lemma config_blocks_are_the_accepted_config_messages_witness :
  exists ctl s' tr,
    main_from None testcases.mixed_cases (testhost.host0 2) = Ok ctl s' tr
    /\ Forall2 (fun block msg => exists s0, block = CreateNextBlock s0 (Some [msg]))
               (config_blocks tr) [testhost.config_update].
Proof.
  eexists _, _, _. split; [reflexivity |].
  change [testhost.config_update]
    with (accepted_config_messages None testcases.mixed_cases (testhost.host0 2)).
  eapply (config_blocks_are_the_accepted_config_messages
            testcases.mixed_cases None (testhost.host0 2)).
  reflexivity.
Defined.

(** X6 on the example host: [tx2], in the last block written, is one of
    the accepted messages. *)
Lemma blocks_carry_only_accepted_messages_witness :
  exists ctl s' tr block,
    main_from None testcases.mixed_cases (testhost.host0 2) = Ok ctl s' tr
    /\ last (blocks_written tr) = Some block
    /\ testhost.tx2 ∈ accepted_messages None testcases.mixed_cases (testhost.host0 2).
Proof.
  eexists _, _, _, _. split; [reflexivity |]. split; [reflexivity |].
  enough (testhost.tx2 ∈ cutter_pending (testhost.host0 2)
          \/ (testhost.tx2
                ∈ accepted_messages None testcases.mixed_cases (testhost.host0 2)
              /\ RecvSendChan testhost.tx2 ∈ testcases.mixed_cases))
    as [Hpending | [Haccepted _]];
    [by apply elem_of_nil in Hpending | exact Haccepted |].
  eapply (blocks_carry_only_accepted_messages
            testcases.mixed_cases None (testhost.host0 2)).
  - reflexivity.
  - simpl. do 2 apply list_elem_of_further. apply list_elem_of_here.
  - simpl. apply list_elem_of_here.
Defined.

(** X7 on the example host: after a transaction and the timer, nothing is
    pending and the one block carries the transaction. *)
Lemma blocks_exact_after_flush_witness :
  exists s' tr,
    main_from None ([RecvSendChan testhost.tx1] ++ [RecvTimer]) (testhost.host0 2)
    = Ok (Continue None) s' tr
    /\ cutter_pending s' = []
    /\ concat (Data <$> blocks_written tr) = [testhost.tx1].
Proof.
  destruct (main_from None ([RecvSendChan testhost.tx1] ++ [RecvTimer]) (testhost.host0 2))
    as [[t |] s' tr | f] eqn:Hrun; [| discriminate Hrun | discriminate Hrun].
  destruct (blocks_exact_after_flush
              [RecvSendChan testhost.tx1] RecvTimer None (testhost.host0 2) t s' tr Hrun)
    as (Hpending & -> & Hblocks).
  - intros t1 s1 tr1 _. reflexivity.
  - exists s', tr. split; [reflexivity |]. split; [exact Hpending | exact Hblocks].
Defined.

(** X8 on the example host, whose chain is that of ["system"]: a
    transaction for ["nochan"] is dropped. *)
Lemma system_chain_drops_messages_for_other_channels_witness :
  exists format,
    main_iter (RecvSendChan testhost.stray_tx) None (testhost.host0 2)
    = Ok (Continue None) (testhost.host0 2) [EvWarning format]
    /\ ProcessNormalMsg (testhost.host0 2) testhost.stray_tx
       = (0%N, Some ErrChannelDoesNotExist).
Proof.
  apply (system_chain_drops_messages_for_other_channels
           (fun _ : testhost.host => testhost.system)) with (id := "nochan").
  - intros s msg. reflexivity.
  - reflexivity.
  - reflexivity.
  - discriminate.
Defined.

(** X9 on the example host: calls of [Order], [Halt] and [Configure] on a
    chain whose [main] has returned change nothing. *)
Lemma nothing_happens_after_main_returns_witness :
  exists ch',
    run testcases.late_schedule testcases.finished_chain = Step ch'
    /\ main_g ch' = MainReturned
    /\ support ch' = support testcases.finished_chain
    /\ trace ch' = trace testcases.finished_chain
    /\ exitChan ch' = Closed.
Proof.
  eexists. split; [reflexivity |].
  apply (nothing_happens_after_main_returns
           testcases.finished_chain testcases.late_schedule).
  - exists (testhost.host0 2), testcases.busy_schedule. vm_compute. reflexivity.
  - vm_compute. reflexivity.
  - reflexivity.
Defined.

(** X10 on the example host: a call of [Order] and a call of [Halt] on a
    chain that was never started. *)
Lemma chain_is_inert_before_Start_witness :
  exists ch,
    run testcases.unstarted_schedule (HandleChain (testhost.host0 2) None).1 = Step ch
    /\ support ch = testhost.host0 2
    /\ Forall (fun o => ~ runs.served o) (orders ch)
    /\ trace ch = [EvCloseExitChan].
Proof.
  eexists. split; [reflexivity |].
  apply (chain_is_inert_before_Start
           (testhost.host0 2) None testcases.unstarted_schedule).
  - reflexivity.
  - reflexivity.
Defined.

(** X11 on the example host: [Halt] on a chain with a blocked call of
    [Order] and a message pending in the cutter. *)
Lemma Halt_releases_and_writes_nothing_witness :
  exists ch1,
    Halt testcases.waiting_chain = Step ch1
    /\ orders ch1 = [OrderReturned (Some (Errorf "Exiting"))]
    /\ support ch1 = testhost.host_pending 2 [testhost.tx2]
    /\ blocks_written (trace ch1) = [].
Proof.
  destruct (Halt_releases_and_writes_nothing testcases.waiting_chain)
    as (ch1 & Hhalt & _ & Horders & _ & _ & _ & Hsupport & Hblocks & _).
  - reflexivity.
  - exists ch1. split; [exact Hhalt |]. split; [exact Horders |].
    split; [exact Hsupport | exact Hblocks].
Defined.

(** X12 on the example host: after one transaction the timer is armed and
    the transaction is pending. *)
Lemma timer_is_armed_only_over_pending_messages_witness :
  timer_of (main_g testhost.served_chain) = Some 2000000000%Z
  /\ cutter_pending (support testhost.served_chain) <> []
  /\ no_pending_warning ∉ trace testhost.served_chain.
Proof.
  destruct (timer_is_armed_only_over_pending_messages testhost.served_chain)
    as [Harmed Hlog].
  - exists (testhost.host0 2),
      [CallStart; StepMain MainBlock; CallOrder testhost.tx1 7;
       StepOrder 0 SendSendChan].
    reflexivity.
  - split; [reflexivity |]. split; [| exact Hlog].
    apply Harmed. discriminate.
Defined.

(** ** Crashes, and the channel [Errored] hands out *)

Section chain_failures.

Context {S : Type} `{ConsenterSupport S}.

Implicit Types (ch : @chain S) (l : label).

Lemma main_takes_Crash c timer ch format :
  main_takes c timer ch = Crash format ->
  main_iter c timer (support ch) = Panic format.
Proof.
  unfold main_takes.
  destruct (main_iter c timer (support ch)) as [ctl s tr | f]; [done |].
  by intros [= <-].
Qed.

(** Only an arriving message can panic an iteration, and only one that does
    not classify. *)
Lemma main_iter_Panic c timer (s : S) format :
  main_iter c timer s = Panic format ->
  exists env, c = RecvSendChan env /\ classified s env = false.
Proof.
  intros Hp. destruct c as [env | |].
  - exists env. split; [done |].
    destruct (classified s env) eqn:Hcl; [exfalso | done].
    unfold classified in Hcl.
    destruct (utils.ChannelHeader env) as [chdr [herr|]] eqn:Hh; [done |].
    destruct (ClassifyMsg s chdr) as [class [cerr|]] eqn:Hc; [done |].
    apply bool_decide_eq_true_1 in Hcl.
    destruct (main_supported_class env timer s chdr class Hh Hc Hcl)
      as (ctl & s' & tr & Hok).
    by rewrite Hok in Hp.
  - destruct (BlockCutter_Cut s) as [batch s1] eqn:Hcut.
    rewrite (main_timer timer s batch s1 Hcut) in Hp. by case_bool_decide.
  - done.
Qed.

(** X13.  The calls and goroutines of a chain bring the process down in two
    ways only: a call of [Halt] that chose [default] closes an exit channel
    that another call has closed in between, or [main] takes from a call of
    [Order] a message that does not classify.  [Start], the calls of [Order]
    and [Configure] on their own, the timer and the exit case never
    crash. *)
Theorem process_crashes_in_two_ways_only (l : label) (ch : chain) (format : string) :
  step l ch = Crash format ->
  (exists k, l = StepHalt k /\ halts ch !! k = Some HaltDefault
             /\ exitChan ch = Closed /\ format = "close of closed channel")
  \/ (exists env timer i,
        (main_g ch = MainSelect timer \/ main_g ch = MainBlocked timer)
        /\ (orders ch !! i = Some (OrderSelect env)
            \/ orders ch !! i = Some (OrderBlocked env))
        /\ classified (support ch) env = false
        /\ main_iter (RecvSendChan env) timer (support ch) = Panic format).
Proof.
  intros Hstep.
  destruct l as [| env seq | cu env seq | | i c | c | k |]; simpl in Hstep; try done.
  - unfold Start in Hstep. by destruct (main_g ch).
  - unfold order_step in Hstep.
    destruct (orders ch !! i) as [[env | env | err] |] eqn:Hi; try done.
    unfold Order_select in Hstep. destruct c.
    + destruct (main_blocked ch); [| done].
      destruct (main_g ch) as [| | timer |] eqn:Hg; try done.
      apply main_takes_Crash in Hstep.
      destruct (main_iter_Panic (RecvSendChan env) timer (support ch) format Hstep)
        as (env' & [= <-] & Hcl).
      right. exists env, timer, i. repeat split; try done; first [by right | by left].
    + by destruct (ready (exitChan ch)).
    + by destruct (main_blocked ch || ready (exitChan ch)).
  - unfold main_step in Hstep. destruct (main_g ch) as [| timer | |] eqn:Hg; try done.
    destruct c as [i | | |].
    + destruct (orders ch !! i) as [[| env |] |] eqn:Hi; try done.
      apply main_takes_Crash in Hstep.
      destruct (main_iter_Panic (RecvSendChan env) timer (support ch) format Hstep)
        as (env' & [= <-] & Hcl).
      right. exists env, timer, i. repeat split; try done; first [by left | by right].
    + destruct timer as [d |]; [| done].
      apply main_takes_Crash in Hstep.
      by destruct (main_iter_Panic _ _ _ _ Hstep) as (env' & ? & _).
    + destruct (ready (exitChan ch)); [| done]. by rewrite main_takes_exit in Hstep.
    + by destruct (existsb is_blocked (orders ch) || ready (exitChan ch)).
  - unfold halt_step in Hstep. destruct (halts ch !! k) as [[| |] |] eqn:Hk; try done.
    unfold close_exitChan in Hstep. simpl in Hstep.
    destruct (exitChan ch) eqn:He; simpl in Hstep.
    + by destruct (main_g ch).
    + injection Hstep as <-. left. by exists k.
  - unfold timer_expires in Hstep.
    destruct (main_g ch) as [| | [d |] |]; try done.
    apply main_takes_Crash in Hstep.
    by destruct (main_iter_Panic _ _ _ _ Hstep) as (env' & ? & _).
Qed.

Lemma closes_positive tr : EvCloseExitChan ∈ tr <-> 0 < closes tr.
Proof.
  induction tr as [| e tr IH].
  - split; [by intros ?%elem_of_nil | unfold closes; simpl; lia].
  - rewrite elem_of_cons, IH. change (e :: tr) with ([e] ++ tr). rewrite closes_app.
    generalize (closes tr) as n. intros n.
    destruct e; unfold closes; simpl; split; intros Hx;
      first [lia | by left | right; lia
            | destruct Hx as [Hx | Hx]; [discriminate Hx | lia]].
Qed.

(** X14.  The channel [Errored] hands out is closed exactly when a call of
    [Halt] has closed the exit channel: [main] never closes it, whatever it
    receives.  Once closed it stays closed. *)
Theorem Errored_closes_with_Halt_and_stays_closed (ch : chain) :
  reachable ch ->
  (Errored ch = Closed <-> EvCloseExitChan ∈ trace ch)
  /\ forall ls ch', run ls ch = Step ch' -> Errored ch = Closed -> Errored ch' = Closed.
Proof.
  intros Hreach. split.
  - destruct (reachable_inv ch Hreach) as [_ Hcl].
    rewrite closes_positive. unfold Errored.
    destruct (exitChan ch); simpl in Hcl; split; try done; lia.
  - intros ls ch' Hrun Hclosed. revert Hrun.
    apply (run_preserves (fun c => Errored c = Closed)); [| done].
    clear. unfold Errored. intros l c c' Hc Hstep.
    destruct (step_shape l c c' Hstep)
      as [(_ & Htr & _)
         | (? & ? & pre & ? & ? & ? & _ & _ & _ & _ & Hpre & _)].
    + destruct Htr as [[_ He] | (_ & _ & He)]; congruence.
    + destruct Hpre as [[_ He] | [_ He]]; congruence.
Qed.

End chain_failures.

(** X13 on the example host: a message of a type no class is defined for
    reaches [main] and brings the process down. *)
Lemma process_crashes_in_two_ways_only_witness :
  exists format,
    step (StepOrder 0 SendSendChan)
         (testhost.chain_after
            [CallStart; StepMain MainBlock; CallOrder testhost.odd_type 7]
            (testhost.host0 2))
    = Crash format
    /\ classified (testhost.host0 2) testhost.odd_type = false.
Proof.
  eexists. split; [reflexivity |].
  edestruct (process_crashes_in_two_ways_only
               (StepOrder 0 SendSendChan)
               (testhost.chain_after
                  [CallStart; StepMain MainBlock; CallOrder testhost.odd_type 7]
                  (testhost.host0 2)))
    as [(k & Hl & _) | (env & timer & i & _ & _ & _ & _)].
  - reflexivity.
  - discriminate Hl.
  - reflexivity.
Defined.

(** X14 on the example host: the channel of the halted chain is closed, and
    stays so when the waiting call of [Order] returns. *)
Lemma Errored_closes_with_Halt_and_stays_closed_witness :
  Errored testhost.halted_chain = Closed
  /\ Errored testhost.refused_chain = Closed.
Proof.
  destruct (Errored_closes_with_Halt_and_stays_closed testhost.halted_chain)
    as [Hclosed Hstays].
  - exists (testhost.host0 2),
      [CallStart; CallOrder testhost.tx1 7; CallHalt; StepHalt 0; StepHalt 0].
    vm_compute. reflexivity.
  - split.
    + apply Hclosed. vm_compute. apply list_elem_of_here.
    + apply (Hstays [StepOrder 0 OrderRecvExitChan]); [vm_compute; reflexivity |].
      apply Hclosed. vm_compute. apply list_elem_of_here.
Defined.
